(** * Mathixyz front end: a shallow embedding of the React client

The development follows the TypeScript sources of the front end
([services/api.ts], [components/ImageUpload.tsx], [pages/UploadPage.tsx],
[pages/StatusPage.tsx], [components/MathRenderer.tsx] and
[components/LessonViewer.tsx]).  Component state held by [useState] is
an explicit record, an event handler is a function from the state it
closes over to the state it sets, and the network is an oracle indexed
by the number of requests already issued. *)

From Stdlib Require Import ZArith NArith List String Ascii Bool Lia.
From Stdlib Require Import Numbers.DecimalString.
Import ListNotations.

Local Open Scope string_scope.
Local Open Scope Z_scope.

#[local] Set Warnings "-register-all".

(* ================================================================== *)
(** ** JavaScript values and the array/string primitives the code uses *)
(* ================================================================== *)

Module Js.

(** A number, kept by the two things the code can observe of it: the
    string ToString gives for it (exponent notation from 1e21 up,
    fractions, a sign) and whether ToBoolean holds of it.  Every number
    is such a pair; what is proved of every pair holds of the numbers. *)
Record JsNumber : Type := mkNumber {
  number_string : string;
  number_truthy : bool
}.

(** A runtime value as it arrives in [response.data]; an object is its
    list of own properties. *)
Inductive JsValue : Type :=
| JUndefined
| JNull
| JBool (b : bool)
| JNum (n : JsNumber)
| JStr (s : string)
| JArr (items : list JsValue)
| JObj (fields : list (string * JsValue)).

(** ToBoolean. *)
Definition truthy (v : JsValue) : bool :=
  match v with
  | JUndefined | JNull => false
  | JBool b => b
  | JNum n => number_truthy n
  | JStr s => negb (String.eqb s "")
  | JArr _ | JObj _ => true
  end.

(** [a || b] on values. *)
Definition or (a b : JsValue) : JsValue := if truthy a then a else b.

(** ToBoolean of a possibly undefined string. *)
Definition truthy_string (s : option string) : bool :=
  match s with
  | Some x => negb (String.eqb x "")
  | None => false
  end.

(** [s || d] where [s] is a possibly undefined string. *)
Definition or_string (s : option string) (d : string) : string :=
  match s with
  | Some x => if truthy_string s then x else d
  | None => d
  end.

Definition string_of_nat (n : nat) : string :=
  NilEmpty.string_of_uint (Nat.to_uint n).

Definition string_of_Z (z : Z) : string :=
  NilEmpty.string_of_int (Z.to_int z).

(** [Array.prototype.join]. *)
Fixpoint join (sep : string) (l : list string) : string :=
  match l with
  | [] => ""
  | [x] => x
  | x :: rest => x ++ sep ++ join sep rest
  end.

(** ToString, as used by template literals and by [new Error(v)]. *)
Fixpoint to_string (v : JsValue) : string :=
  match v with
  | JUndefined => "undefined"
  | JNull => "null"
  | JBool true => "true"
  | JBool false => "false"
  | JNum n => number_string n
  | JStr s => s
  | JArr items =>
      join ","
        ((fix elems (l : list JsValue) : list string :=
            match l with
            | [] => []
            | JUndefined :: l' => "" :: elems l'
            | JNull :: l' => "" :: elems l'
            | x :: l' => to_string x :: elems l'
            end) items)
  | JObj _ => "[object Object]"
  end.

(** Own-property lookup in a property list. *)
Fixpoint lookup (key : string) (fields : list (string * JsValue))
  : option JsValue :=
  match fields with
  | [] => None
  | (k, v) :: rest => if String.eqb k key then Some v else lookup key rest
  end.

(** [v?.key]: undefined on null and undefined, the property otherwise
    (a primitive or an array has no such own property). *)
Definition get_opt (v : JsValue) (key : string) : JsValue :=
  match v with
  | JObj fields =>
      match lookup key fields with Some x => x | None => JUndefined end
  | _ => JUndefined
  end.

(** [v === undefined || v === null]. *)
Definition nullish (v : JsValue) : bool :=
  match v with
  | JUndefined | JNull => true
  | _ => false
  end.

(** [v.key], for the keys the pages read ([job_id], [status],
    [lesson_id]; no prototype defines them): reading a property of null
    or undefined throws a TypeError ([None]); every other value gives
    its own property, or undefined. *)
Definition get (v : JsValue) (key : string) : option JsValue :=
  if nullish v then None else Some (get_opt v key).

(** [v === s] for a string [s]: strict equality, without conversion. *)
Definition is_string (v : JsValue) (s : string) : bool :=
  match v with
  | JStr x => String.eqb x s
  | _ => false
  end.

(** [Array.prototype.map] with the index argument. *)
Fixpoint mapi_from {A B} (i : nat) (f : A -> nat -> B) (l : list A)
  : list B :=
  match l with
  | [] => []
  | x :: rest => f x i :: mapi_from (S i) f rest
  end.

Definition mapi {A B} (f : A -> nat -> B) (l : list A) : list B :=
  mapi_from 0 f l.

(** [Array.prototype.filter] with the index argument. *)
Fixpoint filteri_from {A} (i : nat) (p : A -> nat -> bool) (l : list A)
  : list A :=
  match l with
  | [] => []
  | x :: rest =>
      if p x i then x :: filteri_from (S i) p rest
      else filteri_from (S i) p rest
  end.

Definition filteri {A} (p : A -> nat -> bool) (l : list A) : list A :=
  filteri_from 0 p l.

(** [Array.prototype.forEach] with the index argument, threading the
    state the callback mutates. *)
Fixpoint forEach_from {A St} (i : nat) (f : A -> nat -> St -> St)
  (l : list A) (s : St) : St :=
  match l with
  | [] => s
  | x :: rest => forEach_from (S i) f rest (f x i s)
  end.

Definition forEach {A St} (f : A -> nat -> St -> St) (l : list A)
  (s : St) : St :=
  forEach_from 0 f l s.

(** [arr.slice(0, end)] for an integral [end]: a negative [end] counts
    from the back of the array. *)
Definition slice0 {A} (e : Z) (l : list A) : list A :=
  let len := Z.of_nat (List.length l) in
  let k := if e <? 0 then Z.max (len + e) 0 else Z.min e len in
  firstn (Z.to_nat k) l.

End Js.

(* ================================================================== *)
(** ** Files and multipart bodies *)
(* ================================================================== *)

(** A browser [File]; the components read its name and size only. *)
Record File : Type := mkFile { name : string; size : Z }.

(** The [ImageFile] interface shared by ImageUpload.tsx and
    UploadPage.tsx; [tag] is the optional field. *)
Record ImageFile : Type := mkImageFile {
  file : File;
  preview : string;
  tag : option string
}.

Inductive FormValue : Type :=
| FormFile (f : File)
| FormString (s : string).

(** [FormData]: the entries in the order they were appended. *)
Definition FormData : Type := list (string * FormValue).

Definition append (key : string) (v : FormValue) (fd : FormData) : FormData :=
  (fd ++ [(key, v)])%list.

(** [formData.getAll(key)]. *)
Fixpoint getAll (key : string) (fd : FormData) : list FormValue :=
  match fd with
  | [] => []
  | (k, v) :: rest =>
      if String.eqb k key then v :: getAll key rest else getAll key rest
  end.

(* ================================================================== *)
(** ** services/api.ts *)
(* ================================================================== *)

Module Api.
Import Js.

Inductive Method : Type := GET | POST.

(** The configuration a request goes out with, after axios has merged
    the instance defaults with the per-call configuration. *)
Record Request : Type := mkRequest {
  method : Method;
  baseURL : string;
  url : string;
  timeout : Z;
  headers : list (string * string);
  data : option FormData
}.

(** The per-call configuration object handed to [api.post]/[api.get]. *)
Record CallConfig : Type := mkCallConfig {
  call_headers : list (string * string);
  call_timeout : option Z
}.

(** What the network does with a request: the server answers after
    [latency] ms, the connection fails after [latency] ms, or nothing
    ever comes back. *)
Inductive Outcome : Type :=
| Answer (latency : Z) (status : Z) (body : JsValue)
| NetworkFailure (latency : Z)
| Silence.

Record AxiosResponse : Type := mkResponse {
  status : Z;
  response_data : JsValue
}.

(** The fields of an axios error the interceptor reads. *)
Record AxiosError : Type := mkAxiosError {
  message : string;
  code : option string;
  response : option AxiosResponse
}.

(** How an axios promise ends; [Unsettled] is a promise that never
    resolves or rejects. *)
Inductive Settled (T : Type) : Type :=
| Fulfilled (v : T)
| Failed (e : AxiosError)
| Unsettled.
Arguments Fulfilled {T} v.
Arguments Failed {T} e.
Arguments Unsettled {T}.

(** What an [async] API function gives its caller: a value, a thrown
    [Error] with its message, or no settlement at all. *)
Inductive Promise (T : Type) : Type :=
| Resolved (v : T)
| Rejected (error_message : string)
| Pending.
Arguments Resolved {T} v.
Arguments Rejected {T} error_message.
Arguments Pending {T}.

(** The requests issued so far, oldest first. *)
Record World : Type := mkWorld { sent : list Request }.

(** axios' transport: a positive [timeout] aborts a request that has
    not completed when it expires, with code ECONNABORTED and no
    response; the default [validateStatus] fulfils on 2xx and rejects
    every other status with the response attached. *)
Definition adapter (req : Request) (o : Outcome) : Settled AxiosResponse :=
  let timed_out (latency : Z) :=
    (0 <? timeout req) && (timeout req <=? latency) in
  let timeout_error :=
    mkAxiosError
      ("timeout of " ++ string_of_Z (timeout req) ++ "ms exceeded")
      (Some "ECONNABORTED") None in
  match o with
  | Answer latency st body =>
      if timed_out latency then Failed timeout_error
      else if (200 <=? st) && (st <? 300)
           then Fulfilled (mkResponse st body)
           else Failed
                  (mkAxiosError
                     ("Request failed with status code " ++ string_of_Z st)
                     (if (400 <=? st) && (st <? 500)
                      then Some "ERR_BAD_REQUEST"
                      else if (500 <=? st) && (st <? 600)
                           then Some "ERR_BAD_RESPONSE"
                           else None)
                     (Some (mkResponse st body)))
  | NetworkFailure latency =>
      if timed_out latency then Failed timeout_error
      else Failed (mkAxiosError "Network Error" (Some "ERR_NETWORK") None)
  | Silence =>
      if 0 <? timeout req then Failed timeout_error else Unsettled
  end.

(** [error.response?.status === n]. *)
Definition response_status_is (error : AxiosError) (n : Z) : bool :=
  match response error with
  | Some r => status r =? n
  | None => false
  end.

(** [error.code === c]. *)
Definition code_is (error : AxiosError) (c : string) : bool :=
  match code error with
  | Some x => String.eqb x c
  | None => false
  end.

(** [error.response?.data?.detail]. *)
Definition response_detail (error : AxiosError) : JsValue :=
  match response error with
  | Some r => get_opt (response_data r) "detail"
  | None => JUndefined
  end.

(** The rejection handler of [api.interceptors.response]: the message
    of the [Error] it throws.  The [console.error] call has no effect on
    the result. *)
Definition response_error_interceptor (error : AxiosError) : string :=
  if response_status_is error 404 then "Resource not found"
  else if response_status_is error 500 then "Server error occurred"
  else if code_is error "ECONNABORTED" then "Request timed out"
  else if match response error with None => true | Some _ => false end
  then "Network error - please check if the backend is running"
  else to_string
         (or (response_detail error)
             (or (JStr (message error)) (JStr "An error occurred"))).

(** The fulfilment handler of [api.interceptors.response]. *)
Definition response_interceptor (r : AxiosResponse) : AxiosResponse := r.

(** The fulfilment handler of [api.interceptors.request]; it logs and
    returns the configuration. *)
Definition request_interceptor (config : Request) : Request := config.

(** *** The response interfaces

The interfaces are compile-time declarations: the operations return
[response.data] as it arrived, and nothing at run time compares it
with the declared members.  An interface is kept as the list of its
declared members, which decides whether a runtime value inhabits it;
[UploadResponse] also as the record a value that inhabits it is read
as. *)

Inductive TsType : Type := TsString | TsBoolean | TsNumber | TsAnyArray.

Record Member : Type := mkMember {
  member_name : string;
  member_type : TsType;
  optional : bool
}.

Definition has_type (t : TsType) (v : JsValue) : bool :=
  match t, v with
  | TsString, JStr _ => true
  | TsBoolean, JBool _ => true
  | TsNumber, JNum _ => true
  | TsAnyArray, JArr _ => true
  | _, _ => false
  end.

(** A member is satisfied by a property of its type; an optional one
    also by an absent or undefined property. *)
Definition member_ok (fields : list (string * JsValue)) (m : Member)
  : bool :=
  match lookup (member_name m) fields with
  | None | Some JUndefined => optional m
  | Some v => has_type (member_type m) v
  end.

Definition inhabits (decl : list Member) (v : JsValue) : bool :=
  match v with
  | JObj fields => forallb (member_ok fields) decl
  | _ => false
  end.

Definition string_member (v : JsValue) (key : string) : string :=
  match get_opt v key with JStr s => s | _ => "" end.

Module UploadResponse.
Record t : Type := mk { job_id : string; message : string }.

Definition declaration : list Member :=
  [ mkMember "job_id" TsString false;
    mkMember "message" TsString false ].

Definition cast (v : JsValue) : option t :=
  if inhabits declaration v
  then Some (mk (string_member v "job_id") (string_member v "message"))
  else None.
End UploadResponse.

Module JobStatusResponse.
Definition declaration : list Member :=
  [ mkMember "job_id" TsString false;
    mkMember "status" TsString false;
    mkMember "created_at" TsString false;
    mkMember "ocr_done" TsBoolean false;
    mkMember "llm_done" TsBoolean false;
    mkMember "lesson_built" TsBoolean false;
    mkMember "lesson_id" TsString true;
    mkMember "error" TsString true ].
End JobStatusResponse.

Module LessonResponse.
Definition declaration : list Member :=
  [ mkMember "lesson_id" TsString false;
    mkMember "title" TsString false;
    mkMember "summary" TsString true;
    mkMember "total_steps" TsNumber false;
    mkMember "steps" TsAnyArray false;
    mkMember "created_at" TsString false;
    mkMember "job_id" TsString false ].
End LessonResponse.

Section Client.
(** [process.env.REACT_APP_API_URL]. *)
Variable REACT_APP_API_URL : option string.
(** The outcome of the [n]-th request issued (counting from 0). *)
Variable network : nat -> Request -> Outcome.

Definition API_BASE_URL : string :=
  or_string REACT_APP_API_URL "http://localhost:8000".

(** The defaults of [axios.create({ baseURL, timeout: 30000 })]. *)
Definition api_baseURL : string := API_BASE_URL.
Definition api_timeout : Z := 30000.

(** axios' [mergeConfig]: a per-call value overrides the default. *)
Definition merge (m : Method) (u : string) (body : option FormData)
  (config : CallConfig) : Request :=
  mkRequest m api_baseURL u
    (match call_timeout config with Some t => t | None => api_timeout end)
    (call_headers config) body.

(** How the [n]-th request issued settles once it has gone through
    the request interceptor, the transport and the response
    interceptors: [response] on success, the message of the thrown
    [Error] otherwise. *)
Definition settle (n : nat) (config : Request) : Promise AxiosResponse :=
  let req := request_interceptor config in
  match adapter req (network n req) with
  | Fulfilled r => Resolved (response_interceptor r)
  | Failed e => Rejected (response_error_interceptor e)
  | Unsettled => Pending
  end.

(** One request through the instance. *)
Definition dispatch (config : Request) (w : World)
  : Promise AxiosResponse * World :=
  (settle (List.length (sent w)) config,
   mkWorld (sent w ++ [request_interceptor config])%list).

Definition api_post (u : string) (body : FormData) (config : CallConfig)
  : World -> Promise AxiosResponse * World :=
  dispatch (merge POST u (Some body) config).

Definition api_get (u : string)
  : World -> Promise AxiosResponse * World :=
  dispatch (merge GET u None (mkCallConfig [] None)).

(** [return response.data]: the body as it arrived, whatever return
    type the function declares. *)
Definition return_data (p : Promise AxiosResponse) : Promise JsValue :=
  match p with
  | Resolved r => Resolved (response_data r)
  | Rejected m => Rejected m
  | Pending => Pending
  end.

(** The [await] of an API call followed by the rest of the function:
    the continuation runs on a settled call only. *)
Definition await {A T} (call : World -> Promise A * World)
  (finish : Promise A -> Promise T) (w : World) : Promise T * World :=
  let (p, w') := call w in (finish p, w').

Definition uploadImages (formData : FormData)
  : World -> Promise JsValue * World :=
  await
    (api_post "/upload" formData
       (mkCallConfig [("Content-Type", "multipart/form-data")] None))
    return_data.

Definition getJobStatus (jobId : string)
  : World -> Promise JsValue * World :=
  await (api_get ("/status/" ++ jobId)) return_data.

Definition getLesson (lessonId : string)
  : World -> Promise JsValue * World :=
  await (api_get ("/lesson/" ++ lessonId)) return_data.

(** The three exported operations under one name, for statements
    that hold of each of them. *)
Inductive Call : Type :=
| UploadImages (formData : FormData)
| GetJobStatus (jobId : string)
| GetLesson (lessonId : string).

(** A call that came back well typed: what it resolved with, if it
    did resolve, has the members of the declared interface. *)
Definition well_typed (decl : list Member) (p : Promise JsValue) : bool :=
  match p with
  | Resolved body => inhabits decl body
  | Rejected _ | Pending => true
  end.

Definition perform (c : Call) : World -> Promise JsValue * World :=
  match c with
  | UploadImages formData => uploadImages formData
  | GetJobStatus jobId => getJobStatus jobId
  | GetLesson lessonId => getLesson lessonId
  end.

(** The request each operation hands to axios. *)
Definition request_of (c : Call) : Request :=
  match c with
  | UploadImages formData =>
      merge POST "/upload" (Some formData)
        (mkCallConfig [("Content-Type", "multipart/form-data")] None)
  | GetJobStatus jobId =>
      merge GET ("/status/" ++ jobId) None (mkCallConfig [] None)
  | GetLesson lessonId =>
      merge GET ("/lesson/" ++ lessonId) None (mkCallConfig [] None)
  end.

(** How the [n]-th request settles when it is the status query. *)
Definition status_at (jobId : string) (n : nat) : Promise JsValue :=
  return_data (settle n (request_of (GetJobStatus jobId))).
End Client.

(** The outcome has not completed within [limit] ms. *)
Definition exceeds (limit : Z) (o : Outcome) : bool :=
  match o with
  | Answer latency _ _ | NetworkFailure latency => limit <=? latency
  | Silence => true
  end.

End Api.

(* ================================================================== *)
(** ** components/ImageUpload.tsx *)
(* ================================================================== *)

Module ImageUpload.
Import Js.

(** The [files] state of the component, and the number of object URLs
    the browser has handed out to it so far. *)
Record State : Type := mkState {
  files : list ImageFile;
  object_urls : nat
}.

Definition initial : State := mkState [] 0.

(** The [maxFiles = 5] default of the props destructuring. *)
Definition maxFiles_of (prop : option Z) : Z :=
  match prop with Some m => m | None => 5 end.

Inductive Event : Type :=
| Drop (acceptedFiles : list File)
| Remove (index : nat)
| Tag (index : nat) (tag : string).

Section Component.
Variable maxFiles : Z.
(** [URL.createObjectURL], by the number of URLs created before. *)
Variable createObjectURL : nat -> File -> string.

(** The [newFiles] of [onDrop]. *)
Definition newFiles (acceptedFiles : list File) (st : State)
  : list ImageFile :=
  mapi (fun f i =>
          mkImageFile f
            (createObjectURL (object_urls st + i)%nat f)
            (Some ""))
       acceptedFiles.

(** Each handler returns the state it sets and the list it passes to
    [onFilesChange]. *)
Definition onDrop (acceptedFiles : list File) (st : State)
  : State * list ImageFile :=
  let updatedFiles :=
    slice0 maxFiles (files st ++ newFiles acceptedFiles st)%list in
  (mkState updatedFiles
     (object_urls st + List.length acceptedFiles)%nat,
   updatedFiles).

Definition removeFile (index : nat) (st : State)
  : State * list ImageFile :=
  let updatedFiles :=
    filteri (fun _ i => negb (Nat.eqb i index)) (files st) in
  (mkState updatedFiles (object_urls st), updatedFiles).

Definition updateTag (index : nat) (tag : string) (st : State)
  : State * list ImageFile :=
  let updatedFiles :=
    mapi (fun f i =>
            if Nat.eqb i index
            then mkImageFile (file f) (preview f) (Some tag)
            else f)
         (files st) in
  (mkState updatedFiles (object_urls st), updatedFiles).

Definition handle (e : Event) : State -> State * list ImageFile :=
  match e with
  | Drop acceptedFiles => onDrop acceptedFiles
  | Remove index => removeFile index
  | Tag index tag => updateTag index tag
  end.

(** The component after a sequence of events. *)
Definition run (events : list Event) (st : State) : State :=
  fold_left (fun s e => fst (handle e s)) events st.

(** The component holds no more files than the limit. *)
Definition within_limit (st : State) : Prop :=
  Z.of_nat (List.length (files st)) <= maxFiles.
End Component.
End ImageUpload.

(* ================================================================== *)
(** ** pages/UploadPage.tsx *)
(* ================================================================== *)

Module UploadPage.
Import Js Api.

Record State : Type := mkState {
  files : list ImageFile;
  isUploading : bool;
  error : option string
}.

Definition initial : State := mkState [] false None.

(** [onFilesChange={setFiles}]. *)
Definition setFiles (l : list ImageFile) (st : State) : State :=
  mkState l (isUploading st) (error st).

(** The limit ImageUpload works with under the page's [maxFiles={5}]. *)
Definition maxFiles : Z := ImageUpload.maxFiles_of (Some 5).

(** The body of the [forEach] callback, on the pair of [formData] and
    [tags] it mutates. *)
Definition add_file (fileObj : ImageFile) (index : nat)
  (acc : FormData * list string) : FormData * list string :=
  let (formData, tags) := acc in
  (append "files" (FormFile (file fileObj)) formData,
   (tags ++ [or_string (tag fileObj)
               ("pic" ++ string_of_nat (index + 1))])%list).

(** [formData] and [tags] when the request is made. *)
Definition collect (fs : list ImageFile) : FormData * list string :=
  let (formData, tags) := forEach add_file fs ([], []) in
  (if (0 <? Z.of_nat (List.length tags))
   then append "tags" (FormString (join "," tags)) formData
   else formData,
   tags).

(** The tag rule in the words of the specification: image [k] gets
    [pic<k+1>] when its own tag is unset or is also the tag of another
    image, and its own tag otherwise. *)
Definition same_tag (a b : ImageFile) : bool :=
  String.eqb (or_string (tag a) "") (or_string (tag b) "").

Definition duplicates_another (fs : list ImageFile) (k : nat)
  (f : ImageFile) : bool :=
  existsb (fun x => x)
    (mapi (fun g j => negb (Nat.eqb j k) && same_tag f g) fs).

Definition specified_tags (fs : list ImageFile) : list string :=
  mapi (fun f k =>
          if negb (truthy_string (tag f)) || duplicates_another fs k f
          then "pic" ++ string_of_nat (k + 1)
          else or_string (tag f) "")
       fs.

Section Page.
Variable REACT_APP_API_URL : option string.
Variable network : nat -> Request -> Outcome.
(** The message the engine gives the TypeError thrown by reading the
    property [key] of a null or undefined [v]. *)
Variable TypeError_message : JsValue -> string -> string.

(** [handleUpload]: the state it leaves, the path it navigates to if
    any, and the requests issued.  The body the call resolved with is
    used as it is: the template literal prints whatever its [job_id]
    is, and reading [job_id] of a null body throws into the [catch].
    When the call never settles the handler stays at the [await]. *)
Definition handleUpload (st : State) (w : World)
  : State * option string * World :=
  if Z.of_nat (List.length (files st)) =? 0 then
    (mkState (files st) (isUploading st)
       (Some "Please select at least one image to upload"),
     None, w)
  else
    let formData := fst (collect (files st)) in
    let (p, w') := uploadImages REACT_APP_API_URL network formData w in
    match p with
    | Resolved response =>
        match get response "job_id" with
        | Some job_id =>
            (mkState (files st) false None,
             Some ("/status/" ++ to_string job_id), w')
        | None =>
            (mkState (files st) false
               (Some (TypeError_message response "job_id")),
             None, w')
        end
    | Rejected m => (mkState (files st) false (Some m), None, w')
    | Pending => (mkState (files st) true None, None, w')
    end.
End Page.

(** ImageUpload mounted in the page: the component state and the page
    state it reports to. *)
Section Mounted.
Variable createObjectURL : nat -> File -> string.

Definition on_event (e : ImageUpload.Event)
  (s : ImageUpload.State * State) : ImageUpload.State * State :=
  let (c, changed) :=
    ImageUpload.handle maxFiles createObjectURL e (fst s) in
  (c, setFiles changed (snd s)).

Definition after (events : list ImageUpload.Event)
  : ImageUpload.State * State :=
  fold_left (fun s e => on_event e s) events
    (ImageUpload.initial, initial).
End Mounted.
End UploadPage.

(* ================================================================== *)
(** ** pages/StatusPage.tsx *)
(* ================================================================== *)

Module StatusPage.
Import Js Api.

(** [jobStatus] holds what [getJobStatus] resolved with, as it
    arrived; it starts as null. *)
Record State : Type := mkState {
  jobStatus : JsValue;
  loading : bool;
  error : option string
}.

Definition initial : State := mkState JNull true None.

(** A pending [setTimeout(pollStatus, delay)]. *)
Inductive Timer : Type := PollStatusIn (delay : Z).

(** [pollStatus] from the settled [getJobStatus] call on: the state it
    leaves and the timers it sets.  [TypeError_message] is the message
    the engine gives the TypeError thrown by reading a property of null
    or undefined.  On a null body the first [status.status] throws,
    after [setJobStatus] and [setError(null)], and the [catch] takes
    over; once it has been read [status] is not null, and the later
    reads cannot throw. *)
Definition pollStatus_then (TypeError_message : JsValue -> string -> string)
  (p : Promise JsValue) (st : State) : State * list Timer :=
  match p with
  | Resolved status =>
      let st1 := mkState status (loading st) None in
      let stop := (mkState status false None, []) in
      match get status "status" with
      | Some s =>
          if is_string s "completed"
             && truthy (get_opt status "lesson_id")
          then stop
          else if is_string s "error"
          then stop
          else if negb (is_string s "completed")
          then (st1, [PollStatusIn 2000])
          else stop
      | None =>
          (mkState status false (Some (TypeError_message status "status")),
           [])
      end
  | Rejected m => (mkState (jobStatus st) false (Some m), [])
  | Pending => (st, [])
  end.

(** The status bodies after which the page polls no more: those whose
    [status] is the string 'completed' or 'error'. *)
Definition terminal_status (status : JsValue) : bool :=
  is_string (get_opt status "status") "completed"
  || is_string (get_opt status "status") "error".

(** The calls that end the polling in the words of the specification:
    one that reports a terminal status, and a request error. *)
Definition terminal_or_rejected (p : Promise JsValue) : bool :=
  match p with
  | Resolved status => terminal_status status
  | Rejected _ => true
  | Pending => false
  end.

(** The settled calls that end the polling: a rejected call, a body
    reporting a terminal status, and a null or undefined body. *)
Definition ends_polling (p : Promise JsValue) : bool :=
  match p with
  | Resolved status => nullish status || terminal_status status
  | Rejected _ => true
  | Pending => false
  end.

(** The timers pending, and the number of requests issued, at the end
    of a run of the page. *)
Definition timers_of (r : State * list Timer * World) : list Timer :=
  snd (fst r).

Definition requests_of (r : State * list Timer * World) : nat :=
  List.length (sent (snd r)).

Section Page.
Variable REACT_APP_API_URL : option string.
Variable network : nat -> Request -> Outcome.
Variable TypeError_message : JsValue -> string -> string.

Definition pollStatus (jobId : string) (st : State) (w : World)
  : State * list Timer * World :=
  let (p, w') := getJobStatus REACT_APP_API_URL network jobId w in
  (pollStatus_then TypeError_message p st, w').

(** The effect run on mount: no polling without a job id. *)
Definition useEffect (jobId : option string) (st : State) (w : World)
  : State * list Timer * World :=
  match jobId with
  | Some id =>
      if String.eqb id ""
      then (mkState (jobStatus st) false (Some "No job ID provided"),
            [], w)
      else pollStatus id st w
  | None =>
      (mkState (jobStatus st) false (Some "No job ID provided"), [], w)
  end.

(** The timers firing one after the other, each running [pollStatus];
    [fuel] bounds the number of timers fired. *)
Fixpoint fire (fuel : nat) (jobId : string) (timers : list Timer)
  (st : State) (w : World) : State * list Timer * World :=
  match fuel, timers with
  | S fuel', _ :: later =>
      let '(st', set, w') := pollStatus jobId st w in
      fire fuel' jobId (later ++ set)%list st' w'
  | _, _ => (st, timers, w)
  end.

(** The page from mount until [fuel] timers have fired. *)
Definition poll (fuel : nat) (jobId : string) (w : World)
  : State * list Timer * World :=
  let '(st, timers, w') := useEffect (Some jobId) initial w in
  fire fuel jobId timers st w'.
End Page.
End StatusPage.

(* ================================================================== *)
(** ** components/LessonViewer.tsx *)
(* ================================================================== *)

Module LessonViewer.

Record SolutionStep : Type := mkSolutionStep {
  step_number : Z;
  description : string;
  solution_latex : string;
  solution_explanation : string
}.

Record Explanation : Type := mkExplanation {
  problem_type : string;
  solution_steps : list SolutionStep;
  key_concepts : list string;
  common_mistakes : list string;
  final_answer : string
}.

Record Validation : Type := mkValidation {
  valid : bool;
  simplified : option string;
  validation_error : option string
}.

Record LessonStep : Type := mkLessonStep {
  step_id : string;
  image_index : Z;
  latex : string;
  step_type : string;
  explanation : Explanation;
  validation : Validation
}.

Record LessonData : Type := mkLessonData {
  lesson_id : string;
  title : string;
  summary : option string;
  total_steps : Z;
  steps : list LessonStep
}.

Record State : Type := mkState {
  currentStepIndex : Z;
  expandedSections : list string
}.

Definition initial : State := mkState 0 ["explanation"].

(** The clicks the component handles; a dot button carries the index
    [lesson.steps.map] rendered it for. *)
Inductive Action : Type :=
| NextStep
| PrevStep
| Dot (index : nat)
| ToggleSection (section : string).

Section Viewer.
Variable lesson : LessonData.

(** [lesson.steps[currentStepIndex]]. *)
Definition currentStep (st : State) : option LessonStep :=
  if currentStepIndex st <? 0 then None
  else nth_error (steps lesson) (Z.to_nat (currentStepIndex st)).

Definition setCurrentStepIndex (i : Z) (st : State) : State :=
  mkState i (expandedSections st).

Definition nextStep (st : State) : State :=
  if currentStepIndex st <? Z.of_nat (List.length (steps lesson)) - 1
  then setCurrentStepIndex (currentStepIndex st + 1) st
  else st.

Definition prevStep (st : State) : State :=
  if 0 <? currentStepIndex st
  then setCurrentStepIndex (currentStepIndex st - 1) st
  else st.

Definition toggleSection (section : string) (st : State) : State :=
  if existsb (String.eqb section) (expandedSections st)
  then mkState (currentStepIndex st)
         (filter (fun s => negb (String.eqb section s))
            (expandedSections st))
  else mkState (currentStepIndex st)
         (expandedSections st ++ [section])%list.

(** A dot exists for the indices of [lesson.steps] only; a click on
    one that is not there changes nothing. *)
Definition click (a : Action) (st : State) : State :=
  match a with
  | NextStep => nextStep st
  | PrevStep => prevStep st
  | Dot index =>
      if Nat.ltb index (List.length (steps lesson))
      then setCurrentStepIndex (Z.of_nat index) st
      else st
  | ToggleSection section => toggleSection section st
  end.

(** A render reads [currentStep.step_type], [currentStep.latex] and
    more: with [currentStep] undefined it throws, React unmounts the
    component, and there is nothing left to click. *)
Definition renders (st : State) : bool :=
  match currentStep st with
  | Some _ => true
  | None => false
  end.

(** The component rendered in state [st] and then clicked through
    [actions], each click followed by a render: the state shown at the
    end, or [None] when a render has thrown. *)
Fixpoint run_from (actions : list Action) (st : State) : option State :=
  if renders st then
    match actions with
    | [] => Some st
    | a :: rest => run_from rest (click a st)
    end
  else None.

(** The component from its first render on. *)
Definition run (actions : list Action) : option State :=
  run_from actions initial.

(** The index designates one of the steps. *)
Definition in_bounds (st : State) : Prop :=
  0 <= currentStepIndex st
  <= Z.of_nat (List.length (steps lesson)) - 1.
End Viewer.
End LessonViewer.

(* ================================================================== *)
(** ** Strings as UTF-16 code units, and the regular expressions used *)
(* ================================================================== *)

Module JsString.

(** A string is its sequence of code units. *)
Definition t : Type := list N.

Definition of_string (s : string) : t :=
  map N_of_ascii (list_ascii_of_string s).

Definition open_brace : N := 123.
Definition close_brace : N := 125.

(** WhiteSpace and LineTerminator of ECMAScript, which [trim] strips. *)
Definition is_whitespace (c : N) : bool :=
  (((9 <=? c) && (c <=? 13)) || (c =? 32) || (c =? 160) || (c =? 5760)
   || ((8192 <=? c) && (c <=? 8202)) || (c =? 8232) || (c =? 8233)
   || (c =? 8239) || (c =? 8287) || (c =? 12288) || (c =? 65279))%N.

Fixpoint trimStart (s : t) : t :=
  match s with
  | c :: rest => if is_whitespace c then trimStart rest else s
  | [] => []
  end.

Definition trimEnd (s : t) : t := rev (trimStart (rev s)).

Definition trim (s : t) : t := trimEnd (trimStart s).

(** [s] without the prefix [cs], if it starts with it. *)
Fixpoint strip (cs s : t) : option t :=
  match cs, s with
  | [], _ => Some s
  | c :: cs', x :: s' => if (c =? x)%N then strip cs' s' else None
  | _ :: _, [] => None
  end.

(** The part of [s] in front of its suffix [rest]. *)
Definition consumed (s rest : t) : t :=
  firstn (List.length s - List.length rest) s.

End JsString.

Module RegExp.
Import JsString.

(** The pattern syntax the sources use: literal characters, a greedy
    [[^c]+], a capturing group and concatenation. *)
Inductive pattern : Type :=
| Chars (cs : JsString.t)
| PlusNot (c : N)
| Group (p : pattern)
| Seq (p q : pattern).

(** A match at a position: what follows it, and the captures. *)
Definition Match : Type := (JsString.t * list JsString.t)%type.

(** The rest of a greedy [[^c]+] after its first character: the
    longest run first, one character given back on each failure of the
    continuation. *)
Fixpoint more_not (c : N) (s : JsString.t)
  (k : JsString.t -> option Match) : option Match :=
  match s with
  | x :: s' =>
      if (x =? c)%N then k s
      else match more_not c s' k with
           | Some m => Some m
           | None => k s
           end
  | [] => k []
  end.

(** Backtracking matcher in continuation-passing style. *)
Fixpoint run (p : pattern) (s : JsString.t) (caps : list JsString.t)
  (k : JsString.t -> list JsString.t -> option Match) : option Match :=
  match p with
  | Chars cs =>
      match strip cs s with
      | Some s' => k s' caps
      | None => None
      end
  | PlusNot c =>
      match s with
      | x :: s' =>
          if (x =? c)%N then None else more_not c s' (fun r => k r caps)
      | [] => None
      end
  | Group q => run q s caps (fun r caps' => k r (caps' ++ [consumed s r])%list)
  | Seq q1 q2 => run q1 s caps (fun r caps' => run q2 r caps' k)
  end.

(** The match of [p] that starts at the head of [s], if any. *)
Definition exec (p : pattern) (s : JsString.t) : option Match :=
  run p s [] (fun r caps => Some (r, caps)).

(** A replacement string: literal text and [$n] references. *)
Inductive piece : Type :=
| Literal (cs : JsString.t)
| Capture (n : nat).

Definition expand (replacement : list piece) (caps : list JsString.t)
  : JsString.t :=
  flat_map (fun pc =>
              match pc with
              | Literal cs => cs
              | Capture n => nth (n - 1) caps []
              end) replacement.

(** [s.replace(/p/g, replacement)]: left to right, every match found
    after the end of the previous one; [skip] counts the characters of
    the current match still to pass over.  After an empty match the
    scan moves on by one character. *)
Fixpoint replace_from (p : pattern) (replacement : list piece)
  (skip : nat) (s : JsString.t) : JsString.t :=
  match s with
  | [] =>
      match skip, exec p [] with
      | O, Some (_, caps) => expand replacement caps
      | _, _ => []
      end
  | x :: s' =>
      match skip with
      | S skip' => replace_from p replacement skip' s'
      | O =>
          match exec p s with
          | Some (rest, caps) =>
              (expand replacement caps ++
               match (List.length s - List.length rest)%nat with
               | O => x :: replace_from p replacement 0 s'
               | S n => replace_from p replacement n s'
               end)%list
          | None => x :: replace_from p replacement 0 s'
          end
      end
  end.

Definition replace_all (p : pattern) (replacement : list piece)
  (s : JsString.t) : JsString.t :=
  replace_from p replacement 0 s.

End RegExp.

(* ================================================================== *)
(** ** components/MathRenderer.tsx *)
(* ================================================================== *)

Module MathRenderer.
Import JsString RegExp.

(** [/\\text\{([^}]+)\}/g] *)
Definition text_macro : pattern :=
  Seq (Chars (of_string "\text{"))
      (Seq (Group (PlusNot close_brace)) (Chars (of_string "}"))).

(** ['\\mathrm{$1}'] *)
Definition mathrm : list piece :=
  [Literal (of_string "\mathrm{"); Capture 1; Literal (of_string "}")].

(** [/\\displaystyle/g] *)
Definition displaystyle : pattern := Chars (of_string "\displaystyle").

Definition cleanLatex (latex : JsString.t) : JsString.t :=
  trim (replace_all displaystyle [] (replace_all text_macro mathrm latex)).

(** What the component hands to KaTeX. *)
Inductive Rendered : Type :=
| InlineMath (math : JsString.t)
| BlockMath (math : JsString.t).

Definition render (latex : JsString.t) (inline : bool) : Rendered :=
  let cleanedLatex := cleanLatex latex in
  if inline then InlineMath cleanedLatex else BlockMath cleanedLatex.

(** *** Occurrences, for stating what [cleanLatex] rewrites *)

(** The longest prefix of characters satisfying [ok], and the rest. *)
Fixpoint span (ok : N -> bool) (s : JsString.t) : JsString.t * JsString.t :=
  match s with
  | x :: s' =>
      if ok x then let (c, r) := span ok s' in (x :: c, r) else ([], s)
  | [] => ([], [])
  end.

(** [s] starts with [\text{], a non-empty content of [ok] characters
    and [}]: the content and what follows the closing brace. *)
Definition macro_at (ok : N -> bool) (s : JsString.t)
  : option (JsString.t * JsString.t) :=
  match strip (of_string "\text{") s with
  | Some body =>
      match span ok body with
      | ([], _) => None
      | (c, x :: rest) =>
          if (x =? close_brace)%N then Some (c, rest) else None
      | (_, []) => None
      end
  | None => None
  end.

(** Some suffix of [s] satisfies [here]. *)
Fixpoint somewhere (here : JsString.t -> bool) (s : JsString.t) : bool :=
  here s ||
  match s with
  | _ :: s' => somewhere here s'
  | [] => false
  end.

Definition is_some {A} (o : option A) : bool :=
  match o with Some _ => true | None => false end.

(** Content as the regular expression takes it: anything but [}]. *)
Definition not_close (c : N) : bool := negb (c =? close_brace)%N.

(** Content without braces of either kind. *)
Definition no_brace (c : N) : bool :=
  negb (c =? open_brace)%N && negb (c =? close_brace)%N.

Definition has_text_macro (ok : N -> bool) (s : JsString.t) : bool :=
  somewhere (fun r => is_some (macro_at ok r)) s.

Definition contains (w s : JsString.t) : bool :=
  somewhere (fun r => is_some (strip w r)) s.

Definition edge_whitespace (s : JsString.t) : bool :=
  match s with
  | [] => false
  | c :: _ => is_whitespace c || is_whitespace (last s c)
  end.

(** One left-to-right pass turning each [\text{c}], [c] a non-empty
    run without [}], into [\mathrm{c}] and keeping every other
    character. *)
Inductive text_pass : JsString.t -> JsString.t -> Prop :=
| text_end : text_pass [] []
| text_hit c rest out :
    c <> [] ->
    Forall (fun x => x <> close_brace) c ->
    text_pass rest out ->
    text_pass (of_string "\text{" ++ c ++ of_string "}" ++ rest)%list
              (of_string "\mathrm{" ++ c ++ of_string "}" ++ out)%list
| text_keep x s out :
    macro_at not_close (x :: s) = None ->
    text_pass s out ->
    text_pass (x :: s) (x :: out).

(** One left-to-right pass dropping each occurrence of [w] and keeping
    every other character. *)
Inductive delete_pass (w : JsString.t) : JsString.t -> JsString.t -> Prop :=
| delete_end : delete_pass w [] []
| delete_hit rest out :
    delete_pass w rest out ->
    delete_pass w (w ++ rest)%list out
| delete_keep x s out :
    strip w (x :: s) = None ->
    delete_pass w s out ->
    delete_pass w (x :: s) (x :: out).

(** [out] is [s] without its leading and trailing whitespace. *)
Definition trimmed (s out : JsString.t) : Prop :=
  exists l r,
    s = (l ++ out ++ r)%list /\
    forallb is_whitespace l = true /\
    forallb is_whitespace r = true /\
    edge_whitespace out = false.

End MathRenderer.

(* ================================================================== *)
(** ** components/ProcessingStatus.tsx *)
(* ================================================================== *)

Module ProcessingStatus.
Import Js.

Record Props : Type := mkProps {
  status : string;
  ocrDone : bool;
  llmDone : bool;
  lessonBuilt : bool;
  error : option string
}.

Record Step : Type := mkStep {
  name : string;
  description : string;
  completed : bool;
  current : bool
}.

Definition steps (p : Props) : list Step :=
  [ mkStep "Image Processing & OCR"
      "Extracting mathematical content from images"
      (ocrDone p)
      (String.eqb (status p) "processing" && negb (ocrDone p));
    mkStep "Mathematical Analysis"
      "Validating expressions and generating explanations"
      (llmDone p)
      (ocrDone p && negb (llmDone p));
    mkStep "Lesson Building"
      "Creating structured lesson content"
      (lessonBuilt p)
      (llmDone p && negb (lessonBuilt p)) ].

(** The status icon of a step: the check mark when completed, else the
    spinner when current, else the clock. *)
Inductive Icon : Type := CheckCircle | Spinner | Clock.

Definition icon (s : Step) : Icon :=
  if completed s then CheckCircle
  else if current s then Spinner
  else Clock.

(** What the component shows: the error panel alone, or the steps with
    their icons and the number of completed steps the progress bar is
    computed from. *)
Inductive View : Type :=
| ErrorPanel (message : string)
| StepsPanel (icons : list Icon) (completed_steps : nat).

Definition render (p : Props) : View :=
  if truthy_string (error p)
  then ErrorPanel (or_string (error p) "")
  else StepsPanel (map icon (steps p))
         (List.length (filter completed (steps p))).

End ProcessingStatus.

(* ================================================================== *)
(** ** pages/StatusPage.tsx: what the page shows and its buttons *)
(* ================================================================== *)

Module StatusPageView.
Import Js Api StatusPage.


Definition handleBackToUpload : string := "/".

Section Render.
(** [useParams().jobId]. *)
Variable jobId : option string.

(** [if (!jobId) return ...]: without a job id the component returns
    the 'Invalid Job ID' panel, and nothing of the page below. *)
Definition shows_invalid_job_id : bool := negb (truthy_string jobId).

(** [loading && !jobStatus]: the spinner of the first load. *)
Definition shows_loading (st : State) : bool :=
  truthy_string jobId && (loading st && negb (truthy (jobStatus st))).

(** [error && ...]: the error box. *)
Definition shows_error (st : State) : bool :=
  truthy_string jobId && truthy_string (error st).

(** [jobStatus?.status === 'completed' && jobStatus.lesson_id]: the
    View Lesson button. *)
Definition shows_view_lesson (st : State) : bool :=
  truthy_string jobId
  && (is_string (get_opt (jobStatus st) "status") "completed"
      && truthy (get_opt (jobStatus st) "lesson_id")).

(** [jobStatus && jobStatus.status !== 'completed' &&
    jobStatus.status !== 'error']: the time estimate under the page. *)
Definition shows_time_estimate (st : State) : bool :=
  truthy_string jobId
  && (truthy (jobStatus st)
      && negb (is_string (get_opt (jobStatus st) "status") "completed")
      && negb (is_string (get_opt (jobStatus st) "status") "error")).
End Render.



End StatusPageView.

(* ================================================================== *)
(** ** pages/LessonPage.tsx *)
(* ================================================================== *)

Module LessonPage.
Import Js Api.

(** [lesson] holds what [getLesson] resolved with, as it arrived; it
    starts as null. *)
Record State : Type := mkState {
  lesson : JsValue;
  loading : bool;
  error : option string
}.

Definition initial : State := mkState JNull true None.

(** [fetchLesson] from the settled [getLesson] call on; the [finally]
    clears [loading] on both ways out. *)
Definition fetchLesson_then (p : Promise JsValue) (st : State) : State :=
  match p with
  | Resolved lessonData => mkState lessonData false (error st)
  | Rejected m => mkState (lesson st) false (Some m)
  | Pending => st
  end.

Section Page.
Variable REACT_APP_API_URL : option string.
Variable network : nat -> Request -> Outcome.

(** The effect run on mount. *)
Definition fetchLesson (lessonId : option string) (st : State) (w : World)
  : State * World :=
  if truthy_string lessonId then
    let (p, w') :=
      getLesson REACT_APP_API_URL network (or_string lessonId "") w in
    (fetchLesson_then p st, w')
  else (mkState (lesson st) false (Some "No lesson ID provided"), w).

(** The page from mount until the fetch has settled. *)
Definition mount (lessonId : option string) (w : World) : State * World :=
  fetchLesson lessonId initial w.
End Page.

Definition handleBackToUpload : string := "/".

(** The four returns of the component, in the order they are tested;
    the last hands [lesson] to LessonViewer. *)
Inductive View : Type :=
| LoadingView
| ErrorLoadingLesson (message : string)
| LessonNotFound
| LessonView (l : JsValue).

Definition render (st : State) : View :=
  if loading st then LoadingView
  else if truthy_string (error st)
  then ErrorLoadingLesson (or_string (error st) "")
  else if truthy (lesson st) then LessonView (lesson st)
  else LessonNotFound.

End LessonPage.

(* ================================================================== *)
(** ** components/LessonViewer.tsx: sections and runs of clicks *)
(* ================================================================== *)

Module LessonViewerView.
Import LessonViewer.

(** [expandedSections.has(section)]. *)
Definition has (section : string) (st : State) : bool :=
  existsb (String.eqb section) (expandedSections st).

(** The handlers of a sequence of clicks run one after the other, from
    any state. *)
Definition clicks (lesson : LessonData) (actions : list Action) (st : State)
  : State :=
  fold_left (fun st a => click lesson a st) actions st.

End LessonViewerView.

(* ================================================================== *)
(** ** Sample inputs *)
(* ================================================================== *)

Module Samples.
Import Js Api.

(** V8's wording of the TypeError for a property read of null or
    undefined. *)
Definition cannot_read (v : JsValue) (key : string) : string :=
  "Cannot read properties of " ++ to_string v
  ++ " (reading '" ++ key ++ "')".

(** A backend that knows no job or lesson, one that never answers, one
    that reports a finished job, and one whose job finishes on the
    third query. *)
Definition unknown_everything (n : nat) (req : Request) : Outcome :=
  Answer 12 404 (JObj [("detail", JStr "Job not found")]).

Definition silent (n : nat) (req : Request) : Outcome := Silence.

Definition job (status : string) (lesson : JsValue) : JsValue :=
  JObj [("job_id", JStr "j1"); ("status", JStr status);
        ("created_at", JStr "2024-01-01T00:00:00");
        ("ocr_done", JBool true); ("llm_done", JBool true);
        ("lesson_built", JBool true); ("lesson_id", lesson)].

Definition finished_job : JsValue := job "completed" (JStr "l1").

Definition finished (n : nat) (req : Request) : Outcome :=
  Answer 40 200 finished_job.

Definition finishes_third (n : nat) (req : Request) : Outcome :=
  if Nat.ltb n 2 then Answer 40 200 (job "processing" JUndefined)
  else Answer 40 200 finished_job.

Definition sample_file : File := mkFile "scan.png" 2048.

Definition sample_url (n : nat) (f : File) : string :=
  "blob:" ++ string_of_nat n.

Definition tagged (t : option string) : ImageFile :=
  mkImageFile sample_file "blob:0" t.

Definition blank_step : LessonViewer.LessonStep :=
  LessonViewer.mkLessonStep "s1" 0 "x^2+1" "problem"
    (LessonViewer.mkExplanation "algebra" [] [] [] "x^2+1")
    (LessonViewer.mkValidation true (Some "x^2+1") None).

Definition two_steps : LessonViewer.LessonData :=
  LessonViewer.mkLessonData "l1" "Algebra" None 2 [blank_step; blank_step].

(** Further backends: one that fails inside, one that is down, one that
    refuses the upload with a reason, and one that accepts it. *)
Definition failing (n : nat) (req : Request) : Outcome :=
  Answer 25 500 (JObj [("detail", JStr "Internal Server Error")]).

Definition down (n : nat) (req : Request) : Outcome := NetworkFailure 3.


Definition accepting (n : nat) (req : Request) : Outcome :=
  Answer 35 200
    (JObj [("job_id", JStr "j1"); ("message", JStr "Upload successful")]).

(** A backend whose status body carries a number as [job_id], one
    whose job is processing with [lesson_id: null], and one that
    answers 200 with the body [null]. *)
Definition numbered_job : JsValue :=
  JObj [("job_id", JNum (mkNumber "5" true)); ("status", JStr "processing");
        ("created_at", JStr "2024-01-01T00:00:00");
        ("ocr_done", JBool false); ("llm_done", JBool false);
        ("lesson_built", JBool false)].

Definition numbered (n : nat) (req : Request) : Outcome :=
  Answer 40 200 numbered_job.


Definition answers_null (n : nat) (req : Request) : Outcome :=
  Answer 40 200 JNull.



End Samples.

(* ================================================================== *)
(** * Properties *)
(* ================================================================== *)

(** ** The API client *)

Module ApiFacts.
Import Js Api Samples.

Section Client.
Variable REACT_APP_API_URL : option string.
Variable network : nat -> Request -> Outcome.

Abbreviation settle := (settle network).
Abbreviation perform := (perform REACT_APP_API_URL network).
Abbreviation request_of := (request_of REACT_APP_API_URL).

Lemma request_timeout (c : Call) : timeout (request_of c) = 30000.
Proof. destruct c; reflexivity. Qed.

(** Every operation is one [dispatch] of its request followed by
    [return response.data]. *)
Lemma perform_fst (c : Call) (w : World) :
  fst (perform c w)
  = return_data (settle (List.length (sent w)) (request_of c)).
Proof. destruct c; reflexivity. Qed.

Lemma perform_snd (c : Call) (w : World) :
  snd (perform c w) = mkWorld (sent w ++ [request_of c]).
Proof. destruct c; reflexivity. Qed.

Lemma return_data_rejected p m :
  p = Rejected m -> return_data p = Rejected m.
Proof. intros ->. reflexivity. Qed.

(** A rejection of the transport reaches the caller as the message
    the interceptor chose. *)
Lemma settle_failed n config e :
  adapter config (network n config) = Failed e ->
  settle n config = Rejected (response_error_interceptor e).
Proof.
  unfold Api.settle, request_interceptor. intros ->. reflexivity.
Qed.

Lemma adapter_in_time_status req latency st body :
  latency < timeout req ->
  ~ (200 <= st < 300) ->
  exists e,
    adapter req (Answer latency st body) = Failed e /\
    response e = Some (mkResponse st body).
Proof.
  intros Hlat Hst. unfold adapter.
  replace ((0 <? timeout req) && (timeout req <=? latency)) with false
    by (symmetry; apply andb_false_iff; right; apply Z.leb_gt; lia).
  replace ((200 <=? st) && (st <? 300)) with false.
  - eexists. split; reflexivity.
  - symmetry. apply andb_false_iff.
    destruct (Z.leb_spec 200 st); [right; apply Z.ltb_ge; lia | now left].
Qed.

Lemma adapter_timeout req o :
  0 < timeout req ->
  exceeds (timeout req) o = true ->
  exists e,
    adapter req o = Failed e /\
    code e = Some "ECONNABORTED" /\ response e = None.
Proof.
  intros Hpos Hex.
  assert (Hp : (0 <? timeout req) = true) by (apply Z.ltb_lt; lia).
  destruct o as [latency st body | latency | ]; simpl in *;
    rewrite Hp; simpl; rewrite ?Hex;
    eexists; (split; [reflexivity | split; reflexivity]).
Qed.

Lemma adapter_settles req o :
  0 < timeout req -> adapter req o <> Unsettled.
Proof.
  intros Hpos.
  assert (Hp : (0 <? timeout req) = true) by (apply Z.ltb_lt; lia).
  destruct o as [latency st body | latency | ]; simpl; rewrite Hp; simpl.
  - destruct (timeout req <=? latency); [discriminate |].
    destruct ((200 <=? st) && (st <? 300)); discriminate.
  - destruct (timeout req <=? latency); discriminate.
  - discriminate.
Qed.

Lemma interceptor_not_found e body :
  response e = Some (mkResponse 404 body) ->
  response_error_interceptor e = "Resource not found".
Proof.
  intros H. unfold response_error_interceptor, response_status_is.
  rewrite H. reflexivity.
Qed.

Lemma interceptor_timed_out e :
  code e = Some "ECONNABORTED" ->
  response e = None ->
  response_error_interceptor e = "Request timed out".
Proof.
  intros Hc Hr.
  unfold response_error_interceptor, response_status_is, code_is.
  rewrite Hr, Hc. reflexivity.
Qed.

(** C4.  A response with status 404 that arrives within the timeout
    makes the client reject with the message 'Resource not found',
    for each of uploadImages, getJobStatus and getLesson: all three
    go through the response interceptor of the shared instance. *)
Theorem not_found_mapping (c : Call) (w : World) latency body :
  network (List.length (sent w)) (request_of c) = Answer latency 404 body ->
  latency < 30000 ->
  fst (perform c w) = Rejected "Resource not found".
Proof.
  intros Hnet Hlat.
  rewrite perform_fst.
  apply return_data_rejected.
  destruct (adapter_in_time_status (request_of c) latency 404 body)
    as [e [He Hr]].
  - rewrite request_timeout. exact Hlat.
  - lia.
  - rewrite (settle_failed _ _ e) by (rewrite Hnet; exact He).
    f_equal. eapply interceptor_not_found. exact Hr.
Qed.

(** With the timeout of the instance every call settles. *)
Lemma settle_not_pending n (c : Call) :
  return_data (settle n (request_of c)) <> Pending.
Proof.
  unfold Api.settle, request_interceptor.
  pose proof (adapter_settles (request_of c) (network n (request_of c)))
    as Hs.
  destruct (adapter _ _) as [r | e | ].
  - discriminate.
  - discriminate.
  - exfalso. apply Hs; [rewrite request_timeout; lia | reflexivity].
Qed.

(** C6.  Each operation issues one request, and that request carries
    the 30000 ms timeout of the instance; a call whose outcome has
    not completed within those 30000 ms is rejected with the message
    'Request timed out', and no call stays pending.  The interceptor
    maps an error with code 'ECONNABORTED' and no response to that
    message. *)
Theorem timeout_bound (c : Call) (w : World) :
  snd (perform c w) = mkWorld (sent w ++ [request_of c]) /\
  timeout (request_of c) = 30000 /\
  fst (perform c w) <> Pending /\
  (exceeds 30000 (network (List.length (sent w)) (request_of c)) = true ->
   fst (perform c w) = Rejected "Request timed out") /\
  (forall e,
      code e = Some "ECONNABORTED" -> response e = None ->
      response_error_interceptor e = "Request timed out").
Proof.
  split; [apply perform_snd |].
  split; [apply request_timeout |].
  pose proof (request_timeout c) as Ht.
  rewrite perform_fst.
  split; [| split].
  - apply settle_not_pending.
  - intros Hex. apply return_data_rejected.
    destruct (adapter_timeout (request_of c)
                (network (List.length (sent w)) (request_of c)))
      as [e [He [Hc Hr]]]; [lia | rewrite Ht; exact Hex |].
    rewrite (settle_failed _ _ e He).
    f_equal. apply interceptor_timed_out; assumption.
  - intros e. apply interceptor_timed_out.
Qed.

(** *** What an operation resolves with *)

Lemma return_data_resolved p v :
  return_data p = Resolved v ->
  exists r, p = Resolved r /\ response_data r = v.
Proof.
  destruct p as [r | m | ]; simpl; try discriminate.
  intros H. injection H as <-. exists r. auto.
Qed.

(** A call resolves only on an answer with a 2xx status that came
    before the timeout of the request. *)
Lemma settle_resolved_in_time n config r :
  settle n config = Resolved r ->
  exists latency,
    network n config = Answer latency (status r) (response_data r) /\
    200 <= status r < 300 /\
    (0 < timeout config -> latency < timeout config).
Proof.
  unfold Api.settle, request_interceptor, response_interceptor, adapter.
  destruct (network n config) as [latency st body | latency | ].
  - destruct ((0 <? timeout config) && (timeout config <=? latency)) eqn:Et;
      [discriminate |].
    destruct ((200 <=? st) && (st <? 300)) eqn:Es; [| discriminate].
    intros H. injection H as <-. exists latency. simpl.
    split; [reflexivity |].
    apply andb_true_iff in Es. destruct Es as [E1 E2].
    apply Z.leb_le in E1. apply Z.ltb_lt in E2.
    split; [lia |]. intros Hpos.
    apply andb_false_iff in Et. destruct Et as [Et | Et].
    + apply Z.ltb_ge in Et. lia.
    + apply Z.leb_gt in Et. exact Et.
  - destruct ((0 <? timeout config) && (timeout config <=? latency));
      discriminate.
  - destruct (0 <? timeout config); discriminate.
Qed.

Lemma settle_fulfilled n config latency st body :
  network n config = Answer latency st body ->
  latency < timeout config ->
  200 <= st < 300 ->
  settle n config = Resolved (mkResponse st body).
Proof.
  intros Hn Hlat Hst.
  unfold Api.settle, request_interceptor, response_interceptor, adapter.
  rewrite Hn.
  replace ((0 <? timeout config) && (timeout config <=? latency)) with false
    by (symmetry; apply andb_false_iff; right; apply Z.leb_gt; lia).
  replace ((200 <=? st) && (st <? 300)) with true
    by (symmetry; apply andb_true_iff; split;
        [apply Z.leb_le | apply Z.ltb_lt]; lia).
  reflexivity.
Qed.

(** An operation resolves with a value exactly when that value is the
    body of a 2xx answer that came within the 30000 ms. *)
Lemma perform_resolved (c : Call) (w : World) (body : JsValue) :
  fst (perform c w) = Resolved body <->
  exists latency st,
    network (List.length (sent w)) (request_of c) = Answer latency st body /\
    200 <= st < 300 /\ latency < 30000.
Proof.
  rewrite perform_fst. split.
  - intros H. apply return_data_resolved in H. destruct H as [r [Hs Hb]].
    apply settle_resolved_in_time in Hs.
    destruct Hs as [latency [Hn [Hst Hlat]]].
    exists latency, (status r). rewrite <- Hb.
    split; [exact Hn |]. split; [exact Hst |].
    rewrite request_timeout in Hlat. apply Hlat. lia.
  - intros [latency [st [Hn [Hst Hlat]]]].
    rewrite (settle_fulfilled _ _ latency st body Hn)
      by (rewrite ?request_timeout; assumption).
    reflexivity.
Qed.

(** *** The declared shape of a status response *)

Lemma required_string fields k :
  member_ok fields (mkMember k TsString false) = true ->
  exists x, lookup k fields = Some (JStr x).
Proof.
  unfold member_ok. simpl.
  destruct (lookup k fields) as [[ | | b | z | x | l | o] | ];
    simpl; intros H; try discriminate H. exists x. reflexivity.
Qed.

Lemma required_boolean fields k :
  member_ok fields (mkMember k TsBoolean false) = true ->
  exists b, lookup k fields = Some (JBool b).
Proof.
  unfold member_ok. simpl.
  destruct (lookup k fields) as [[ | | b | z | x | l | o] | ];
    simpl; intros H; try discriminate H. exists b. reflexivity.
Qed.

Lemma optional_string fields k :
  member_ok fields (mkMember k TsString true) = true ->
  lookup k fields = None \/ lookup k fields = Some JUndefined \/
  exists x, lookup k fields = Some (JStr x).
Proof.
  unfold member_ok. simpl.
  destruct (lookup k fields) as [[ | | b | z | x | l | o] | ];
    simpl; intros H; try discriminate H; eauto.
Qed.

(** C7, as the code has it.  [getJobStatus] resolves with a value
    exactly when that value is the body of a 2xx response received
    within the timeout: the body is returned as it arrived, and nothing
    compares it with the declared interface [JobStatusResponse].  So
    the result is a record whose [job_id], [status] and [created_at]
    are strings, whose [ocr_done], [llm_done] and [lesson_built] are
    booleans and whose [lesson_id] and [error] are strings when
    present, as soon as the body the backend sent is one. *)
Theorem getJobStatus_returns_body (jobId : string) (w : World)
  (body : JsValue) :
  (fst (getJobStatus REACT_APP_API_URL network jobId w) = Resolved body <->
   exists latency st,
     network (List.length (sent w)) (request_of (GetJobStatus jobId))
     = Answer latency st body /\
     200 <= st < 300 /\ latency < 30000) /\
  (fst (getJobStatus REACT_APP_API_URL network jobId w) = Resolved body ->
   inhabits JobStatusResponse.declaration body = true ->
   exists fields,
     body = JObj fields /\
     (exists x, lookup "job_id" fields = Some (JStr x)) /\
     (exists x, lookup "status" fields = Some (JStr x)) /\
     (exists x, lookup "created_at" fields = Some (JStr x)) /\
     (exists b, lookup "ocr_done" fields = Some (JBool b)) /\
     (exists b, lookup "llm_done" fields = Some (JBool b)) /\
     (exists b, lookup "lesson_built" fields = Some (JBool b)) /\
     (lookup "lesson_id" fields = None \/
      lookup "lesson_id" fields = Some JUndefined \/
      exists x, lookup "lesson_id" fields = Some (JStr x)) /\
     (lookup "error" fields = None \/
      lookup "error" fields = Some JUndefined \/
      exists x, lookup "error" fields = Some (JStr x))).
Proof.
  split.
  - apply (perform_resolved (GetJobStatus jobId)).
  - intros _ Hin.
    destruct body as [ | | b | z | x | l | fields]; try discriminate Hin.
    exists fields. split; [reflexivity |].
    unfold inhabits, JobStatusResponse.declaration in Hin.
    cbn [forallb] in Hin.
    repeat (apply andb_true_iff in Hin;
            let Hm := fresh "Hm" in destruct Hin as [Hm Hin]).
    repeat split;
      first [ apply required_string; assumption
            | apply required_boolean; assumption
            | apply optional_string; assumption ].
Qed.
End Client.

Lemma not_found_mapping_witness :
  fst (getJobStatus None unknown_everything "nope" (mkWorld []))
  = Rejected "Resource not found".
Proof.
  apply (not_found_mapping None unknown_everything (GetJobStatus "nope")
           (mkWorld []) 12 (JObj [("detail", JStr "Job not found")])).
  - reflexivity.
  - lia.
Defined.

Lemma timeout_bound_witness :
  fst (getLesson None silent "l1" (mkWorld []))
  = Rejected "Request timed out".
Proof.
  apply (timeout_bound None silent (GetLesson "l1") (mkWorld [])).
  reflexivity.
Defined.

(** C7, as stated, fails: a backend that answers 200 with a [job_id]
    that is a number makes [getJobStatus] resolve with that very body,
    which is no [JobStatusResponse]. *)
Lemma getJobStatus_resolves_unchecked :
  fst (getJobStatus None numbered "j1" (mkWorld []))
  = Resolved numbered_job /\
  inhabits JobStatusResponse.declaration numbered_job = false /\
  get_opt numbered_job "job_id" = JNum (mkNumber "5" true).
Proof. repeat split. Qed.

Lemma getJobStatus_returns_body_witness :
  fst (getJobStatus None finished "j1" (mkWorld [])) = Resolved finished_job.
Proof.
  apply (proj1 (getJobStatus_returns_body None finished "j1" (mkWorld [])
                  finished_job)).
  exists 40, 200. split; [reflexivity | lia].
Defined.
End ApiFacts.

(** ** Indexed array primitives *)

Module JsFacts.
Import Js.

Lemma mapi_from_length {A B} (f : A -> nat -> B) l i :
  List.length (mapi_from i f l) = List.length l.
Proof.
  revert i. induction l as [| x l IH]; intros i; simpl; [| rewrite IH];
    reflexivity.
Qed.

Lemma mapi_from_nth_error {A B} (f : A -> nat -> B) l i k :
  nth_error (mapi_from i f l) k
  = option_map (fun x => f x (i + k)%nat) (nth_error l k).
Proof.
  revert i k. induction l as [| x l IH]; intros i k.
  - destruct k; reflexivity.
  - destruct k as [| k]; simpl.
    + rewrite Nat.add_0_r. reflexivity.
    + rewrite IH. rewrite Nat.add_succ_r. reflexivity.
Qed.

Lemma mapi_nth_error {A B} (f : A -> nat -> B) l k :
  nth_error (mapi f l) k = option_map (fun x => f x k) (nth_error l k).
Proof. unfold mapi. rewrite mapi_from_nth_error. reflexivity. Qed.

Lemma filteri_from_length {A} (p : A -> nat -> bool) l i :
  (List.length (filteri_from i p l) <= List.length l)%nat.
Proof.
  revert i. induction l as [| x l IH]; intros i; simpl; [lia |].
  specialize (IH (S i)). destruct (p x i); simpl; lia.
Qed.

Lemma slice0_firstn {A} (e : Z) (l : list A) :
  0 <= e -> slice0 e l = firstn (Z.to_nat e) l.
Proof.
  intros He. unfold slice0.
  replace (e <? 0) with false by (symmetry; apply Z.ltb_ge; lia).
  destruct (Z.le_ge_cases e (Z.of_nat (List.length l))) as [Hle | Hge].
  - rewrite Z.min_l by lia. reflexivity.
  - rewrite Z.min_r by lia. rewrite Nat2Z.id.
    rewrite firstn_all. symmetry. apply firstn_all2. lia.
Qed.

Lemma slice0_length {A} (e : Z) (l : list A) :
  0 <= e -> Z.of_nat (List.length (slice0 e l)) <= e.
Proof.
  intros He. rewrite slice0_firstn by assumption.
  rewrite length_firstn. lia.
Qed.

Lemma forEach_from_app {A St} (f : A -> nat -> St -> St) l1 l2 i s :
  forEach_from i f (l1 ++ l2) s
  = forEach_from (i + List.length l1) f l2 (forEach_from i f l1 s).
Proof.
  revert i s. induction l1 as [| x l1 IH]; intros i s; simpl.
  - rewrite Nat.add_0_r. reflexivity.
  - rewrite IH. rewrite Nat.add_succ_r. reflexivity.
Qed.
End JsFacts.

(** ** The upload component *)

Module ImageUploadFacts.
Import Js JsFacts ImageUpload Samples.

Section Component.
Variable maxFiles : Z.
Variable createObjectURL : nat -> File -> string.
Hypothesis maxFiles_nonneg : 0 <= maxFiles.

Abbreviation onDrop := (onDrop maxFiles createObjectURL).
Abbreviation handle := (handle maxFiles createObjectURL).
Abbreviation run := (run maxFiles createObjectURL).
Abbreviation within_limit := (within_limit maxFiles).

Lemma handle_within_limit e st :
  within_limit st -> within_limit (fst (handle e st)).
Proof.
  unfold ImageUpload.within_limit. intros H.
  destruct e as [accepted | i | i t]; simpl.
  - apply slice0_length. assumption.
  - pose proof (filteri_from_length
                  (fun (_ : ImageFile) j => negb (Nat.eqb j i))
                  (files st) 0).
    unfold filteri. lia.
  - unfold mapi. rewrite mapi_from_length. assumption.
Qed.

Lemma run_within_limit events st :
  within_limit st -> within_limit (run events st).
Proof.
  revert st. induction events as [| e events IH]; intros st H; simpl.
  - exact H.
  - apply IH. apply handle_within_limit. exact H.
Qed.

Lemma onDrop_truncates accepted st :
  within_limit st ->
  files (fst (onDrop accepted st))
  = (files st
     ++ firstn (Z.to_nat maxFiles - List.length (files st))
          (newFiles createObjectURL accepted st))%list.
Proof.
  unfold ImageUpload.within_limit. intros H. simpl.
  rewrite slice0_firstn by assumption.
  rewrite firstn_app. f_equal.
  apply firstn_all2. lia.
Qed.
End Component.

(** The list handed to [onFilesChange] is the list the component
    keeps. *)
Lemma handle_reports maxFiles createObjectURL e st :
  snd (ImageUpload.handle maxFiles createObjectURL e st)
  = files (fst (ImageUpload.handle maxFiles createObjectURL e st)).
Proof. destruct e; reflexivity. Qed.

(** C3.  With a limit [maxFiles] that is not negative, the component
    holds at most [maxFiles] files after any sequence of drops,
    removals and tag edits; a drop on a list within the limit yields
    the first [maxFiles] entries of the old list followed by the new
    files, so the old files are all kept and the new ones are cut.  As
    mounted by the upload page the limit is 5, and the page holds the
    same list. *)
Theorem batch_size_bounded (maxFiles : Z)
  (createObjectURL : nat -> File -> string) :
  0 <= maxFiles ->
  (forall events,
      Z.of_nat (List.length
                  (files (run maxFiles createObjectURL events initial)))
      <= maxFiles) /\
  (forall accepted st,
      Z.of_nat (List.length (files st)) <= maxFiles ->
      files (fst (onDrop maxFiles createObjectURL accepted st))
      = firstn (Z.to_nat maxFiles)
          (files st ++ newFiles createObjectURL accepted st) /\
      files (fst (onDrop maxFiles createObjectURL accepted st))
      = (files st
         ++ firstn (Z.to_nat maxFiles - List.length (files st))
              (newFiles createObjectURL accepted st))%list) /\
  (forall events,
      let s := UploadPage.after createObjectURL events in
      UploadPage.maxFiles = 5 /\
      Z.of_nat (List.length (files (fst s))) <= 5 /\
      UploadPage.files (snd s) = files (fst s)).
Proof.
  intros Hm. split; [| split].
  - intros events. apply run_within_limit; [assumption |].
    unfold within_limit. simpl. lia.
  - intros accepted st H. split.
    + simpl. apply slice0_firstn. assumption.
    + apply onDrop_truncates; assumption.
  - intros events. unfold UploadPage.after.
    assert (Hinv : forall s : ImageUpload.State * UploadPage.State,
               within_limit 5 (fst s) /\
               UploadPage.files (snd s) = files (fst s) ->
               let s' := fold_left
                           (fun s e =>
                              UploadPage.on_event createObjectURL e s)
                           events s in
               within_limit 5 (fst s') /\
               UploadPage.files (snd s') = files (fst s')).
    { induction events as [| e events IH]; intros s [Hl Hf]; simpl.
      - split; assumption.
      - apply IH. unfold UploadPage.on_event.
        pose proof (handle_reports UploadPage.maxFiles createObjectURL e
                      (fst s)) as Hr.
        pose proof (handle_within_limit UploadPage.maxFiles createObjectURL
                      ltac:(unfold UploadPage.maxFiles, maxFiles_of; lia) e (fst s) Hl)
          as Hb.
        destruct (ImageUpload.handle UploadPage.maxFiles createObjectURL e
                    (fst s)) as [c changed].
        simpl in *. split; [exact Hb | exact Hr]. }
    specialize (Hinv (initial, UploadPage.initial)).
    simpl in Hinv. split; [reflexivity |].
    apply Hinv. unfold within_limit. simpl. split; [lia | reflexivity].
Qed.

(** C9.  [updateTag index tag] keeps the length of the list and, at
    every position, the file and the preview; the tag becomes [tag] at
    position [index] and stays what it was everywhere else.  The list
    reported to the page is the list kept. *)
Theorem updateTag_frame (index : nat) (t : string) (st : State) :
  let updated := files (fst (updateTag index t st)) in
  snd (updateTag index t st) = updated /\
  List.length updated = List.length (files st) /\
  (forall j f,
      nth_error (files st) j = Some f ->
      exists f',
        nth_error updated j = Some f' /\
        file f' = file f /\
        preview f' = preview f /\
        tag f' = (if Nat.eqb j index then Some t else tag f) /\
        (j <> index -> f' = f)).
Proof.
  simpl. split; [reflexivity |]. split.
  - unfold mapi. apply mapi_from_length.
  - intros j f Hj. rewrite mapi_nth_error, Hj. simpl.
    destruct (Nat.eqb_spec j index) as [-> | Hne].
    + eexists. split; [reflexivity |]. simpl.
      repeat split. intros Hc. contradiction.
    + exists f. repeat split.
Qed.

Lemma batch_size_bounded_witness :
  Z.of_nat
    (List.length
       (files
          (run 5 sample_url
             [Drop [sample_file; sample_file; sample_file; sample_file];
              Remove 1;
              Drop [sample_file; sample_file; sample_file]]
             initial)))
  <= 5.
Proof.
  apply (batch_size_bounded 5 sample_url); lia.
Defined.

Lemma updateTag_frame_witness :
  exists f',
    nth_error
      (files
         (fst (updateTag 0 "pic-a"
                 (mkState [mkImageFile sample_file "blob:0" (Some "")] 1))))
      0 = Some f' /\
    tag f' = Some "pic-a".
Proof.
  destruct (updateTag_frame 0 "pic-a"
              (mkState [mkImageFile sample_file "blob:0" (Some "")] 1))
    as [_ [_ H]].
  destruct (H 0%nat (mkImageFile sample_file "blob:0" (Some "")))
    as [f' [Hn [_ [_ [Ht _]]]]].
  - reflexivity.
  - exists f'. split; [exact Hn | exact Ht].
Defined.
End ImageUploadFacts.

(** ** The upload page *)

Module UploadPageFacts.
Import Js JsFacts Api UploadPage Samples.

Lemma forEach_add_file fs i formData tags :
  forEach_from i add_file fs (formData, tags)
  = ((formData ++ map (fun f => ("files", FormFile (file f))) fs)%list,
     (tags ++ mapi_from i
                (fun f k =>
                   or_string (tag f) ("pic" ++ string_of_nat (k + 1)))
                fs)%list).
Proof.
  revert i formData tags.
  induction fs as [| f fs IH]; intros i formData tags; simpl.
  - rewrite !app_nil_r. reflexivity.
  - unfold append. rewrite IH. rewrite <- !app_assoc. reflexivity.
Qed.

Lemma collect_tags fs :
  snd (collect fs)
  = mapi (fun f k => or_string (tag f) ("pic" ++ string_of_nat (k + 1))) fs.
Proof.
  unfold collect, forEach. rewrite forEach_add_file. reflexivity.
Qed.

Lemma collect_formData fs :
  fs <> [] ->
  fst (collect fs)
  = (map (fun f => ("files", FormFile (file f))) fs
     ++ [("tags", FormString (join "," (snd (collect fs))))])%list.
Proof.
  intros Hne. unfold collect, forEach. rewrite forEach_add_file. simpl.
  destruct fs as [| f fs]; [contradiction |]. reflexivity.
Qed.

Lemma getAll_files_app (fs : list ImageFile) (rest : FormData) :
  getAll "files"
    (map (fun f => ("files", FormFile (file f))) fs ++ rest)%list
  = (map (fun f => FormFile (file f)) fs ++ getAll "files" rest)%list.
Proof.
  induction fs as [| f fs IH]; simpl; [| rewrite IH]; reflexivity.
Qed.

Lemma getAll_tags_app (fs : list ImageFile) (rest : FormData) :
  getAll "tags"
    (map (fun f => ("files", FormFile (file f))) fs ++ rest)%list
  = getAll "tags" rest.
Proof.
  induction fs as [| f fs IH]; simpl; [| rewrite IH]; reflexivity.
Qed.

Section Page.
Variable REACT_APP_API_URL : option string.
Variable network : nat -> Request -> Outcome.
Variable TypeError_message : JsValue -> string -> string.

Abbreviation handleUpload :=
  (handleUpload REACT_APP_API_URL network TypeError_message).

(** A submission with files issues exactly the upload request, with
    the collected form as its body. *)
Lemma handleUpload_sends st w :
  files st <> [] ->
  sent (snd (handleUpload st w))
  = (sent w
     ++ [request_of REACT_APP_API_URL
           (UploadImages (fst (collect (files st))))])%list.
Proof.
  intros Hne. unfold UploadPage.handleUpload.
  destruct (files st) as [| f fs] eqn:Hf; [contradiction |].
  replace (Z.of_nat (List.length (f :: fs)) =? 0) with false
    by (symmetry; apply Z.eqb_neq; simpl; lia).
  unfold uploadImages, await, api_post, dispatch.
  match goal with
  | |- context [return_data ?p] => destruct (return_data p) as [v | m | ]
  end; [destruct (get v "job_id") | ..]; reflexivity.
Qed.

(** C1.  With no file selected, [handleUpload] sets the validation
    error and returns: it navigates nowhere and the list of requests
    issued is the one it started from, so no upload request, and with
    it no job id, comes out of an empty submission. *)
Theorem handleUpload_rejects_empty (st : State) (w : World) :
  files st = [] ->
  handleUpload st w
  = (mkState [] (isUploading st)
       (Some "Please select at least one image to upload"),
     None, w).
Proof.
  intros Hf. unfold UploadPage.handleUpload. rewrite Hf. reflexivity.
Qed.

(** C2, as the code has it.  The tags are one per file, in upload
    order; the tag at position [k] is the tag of that file when it is
    set and not empty, and [pic<k+1>] otherwise, whatever the tags of
    the other files are.  The files go into the form in the same
    order, the tags follow joined by commas, and that form is the
    body of the upload request. *)
Theorem tags_default_when_unset (fs : list ImageFile) :
  let tags := snd (collect fs) in
  List.length tags = List.length fs /\
  (forall k f,
      nth_error fs k = Some f ->
      nth_error tags k
      = Some (match tag f with
              | Some t =>
                  if String.eqb t ""
                  then "pic" ++ string_of_nat (k + 1) else t
              | None => "pic" ++ string_of_nat (k + 1)
              end)) /\
  getAll "files" (fst (collect fs)) = map (fun f => FormFile (file f)) fs /\
  (fs <> [] ->
   getAll "tags" (fst (collect fs)) = [FormString (join "," tags)] /\
   forall isUploading error w,
     sent (snd (handleUpload (mkState fs isUploading error) w))
     = (sent w
        ++ [request_of REACT_APP_API_URL
              (UploadImages (fst (collect fs)))])%list).
Proof.
  cbv zeta. rewrite collect_tags. split; [| split; [| split]].
  - unfold mapi. apply mapi_from_length.
  - intros k f Hk. rewrite mapi_nth_error, Hk. simpl. f_equal.
    destruct (tag f) as [t |]; simpl; [| reflexivity].
    destruct (String.eqb t ""); reflexivity.
  - destruct fs as [| f fs']; [reflexivity |].
    rewrite collect_formData by discriminate.
    rewrite getAll_files_app. simpl. f_equal. apply app_nil_r.
  - intros Hne. split.
    + rewrite collect_formData by assumption.
      rewrite getAll_tags_app. rewrite collect_tags. reflexivity.
    + intros u e w. apply handleUpload_sends. assumption.
Qed.
End Page.

(** C2, as stated, fails: two images that carry the same tag are sent
    with that tag, where the stated rule gives them [pic1] and [pic2]. *)
Lemma duplicate_tags_sent_unchanged :
  let fs := [tagged (Some "x"); tagged (Some "x")] in
  snd (collect fs) = ["x"; "x"] /\
  specified_tags fs = ["pic1"; "pic2"] /\
  snd (collect fs) <> specified_tags fs.
Proof.
  cbv zeta. split; [reflexivity |]. split; [reflexivity |].
  vm_compute. discriminate.
Qed.

Lemma handleUpload_rejects_empty_witness :
  handleUpload None (fun _ _ => Silence) cannot_read initial (mkWorld [])
  = (mkState [] false (Some "Please select at least one image to upload"),
     None, mkWorld []).
Proof.
  apply (handleUpload_rejects_empty None (fun _ _ => Silence) cannot_read
           initial (mkWorld [])).
  reflexivity.
Defined.

Lemma tags_default_when_unset_witness :
  nth_error (snd (collect [tagged (Some "intro"); tagged (Some "");
                           tagged None])) 2
  = Some "pic3".
Proof.
  apply (proj1 (proj2 (tags_default_when_unset None (fun _ _ => Silence)
                         cannot_read
                         [tagged (Some "intro"); tagged (Some "");
                          tagged None]))
           2%nat (tagged None)).
  reflexivity.
Defined.
End UploadPageFacts.

(** ** The lesson viewer *)

Module LessonViewerFacts.
Import LessonViewer Samples.

Section Viewer.
Variable lesson : LessonData.
Hypothesis not_empty : steps lesson <> [].

Abbreviation in_bounds := (in_bounds lesson).

Lemma steps_positive : 0 < Z.of_nat (List.length (steps lesson)).
Proof.
  destruct (steps lesson); [contradiction | simpl; lia].
Qed.

Lemma nextStep_in_bounds st : in_bounds st -> in_bounds (nextStep lesson st).
Proof.
  unfold in_bounds, nextStep. intros H.
  destruct (Z.ltb_spec (currentStepIndex st)
              (Z.of_nat (List.length (steps lesson)) - 1)); simpl; lia.
Qed.

Lemma prevStep_in_bounds st : in_bounds st -> in_bounds (prevStep st).
Proof.
  unfold in_bounds, prevStep. intros H.
  destruct (Z.ltb_spec 0 (currentStepIndex st)); simpl; lia.
Qed.

Lemma toggleSection_index section st :
  currentStepIndex (toggleSection section st) = currentStepIndex st.
Proof.
  unfold toggleSection.
  destruct (existsb (String.eqb section) (expandedSections st));
    reflexivity.
Qed.

Lemma click_in_bounds a st : in_bounds st -> in_bounds (click lesson a st).
Proof.
  intros H. destruct a as [ | | index | section]; simpl.
  - apply nextStep_in_bounds. exact H.
  - apply prevStep_in_bounds. exact H.
  - destruct (Nat.ltb_spec index (List.length (steps lesson))).
    + unfold in_bounds. simpl. lia.
    + exact H.
  - unfold in_bounds. rewrite toggleSection_index. exact H.
Qed.

Lemma fold_in_bounds actions st :
  in_bounds st ->
  in_bounds (fold_left (fun st a => click lesson a st) actions st).
Proof.
  revert st. induction actions as [| a actions IH]; intros st H; simpl.
  - exact H.
  - apply IH. apply click_in_bounds. exact H.
Qed.

Lemma in_bounds_currentStep st :
  in_bounds st -> exists step, currentStep lesson st = Some step.
Proof.
  unfold in_bounds, currentStep. intros H.
  replace (currentStepIndex st <? 0) with false
    by (symmetry; apply Z.ltb_ge; lia).
  destruct (nth_error (steps lesson) (Z.to_nat (currentStepIndex st)))
    as [step |] eqn:E.
  - exists step. reflexivity.
  - apply nth_error_None in E. lia.
Qed.

(** From a state within the bounds every render succeeds, and the
    component goes through the clicks one by one. *)
Lemma run_from_in_bounds actions st :
  in_bounds st ->
  run_from lesson actions st
  = Some (fold_left (fun st a => click lesson a st) actions st).
Proof.
  revert st. induction actions as [| a actions IH]; intros st H;
    cbn [run_from fold_left]; unfold renders;
    destruct (in_bounds_currentStep st H) as [step ->].
  - reflexivity.
  - apply IH. apply click_in_bounds. exact H.
Qed.
End Viewer.

(** C10.  For a lesson with at least one step, the component renders
    through any sequence of next, previous, dot and section clicks, the
    step index after it lies between 0 and [steps.length - 1], and the
    current step exists; from a state within these bounds [prevStep]
    does not go below 0 and [nextStep] does not reach [steps.length]. *)
Theorem step_index_in_bounds (lesson : LessonData) :
  steps lesson <> [] ->
  (forall actions,
      exists st,
        run lesson actions = Some st /\
        0 <= currentStepIndex st
        <= Z.of_nat (List.length (steps lesson)) - 1 /\
        exists step, currentStep lesson st = Some step) /\
  (forall st,
      0 <= currentStepIndex st
      <= Z.of_nat (List.length (steps lesson)) - 1 ->
      0 <= currentStepIndex (prevStep st) /\
      currentStepIndex (nextStep lesson st)
      < Z.of_nat (List.length (steps lesson))).
Proof.
  intros Hne.
  assert (H0 : in_bounds lesson initial).
  { pose proof (steps_positive lesson Hne).
    unfold in_bounds. simpl. lia. }
  split.
  - intros actions.
    exists (fold_left (fun st a => click lesson a st) actions initial).
    split; [apply run_from_in_bounds; exact H0 |].
    assert (Hb : in_bounds lesson
                   (fold_left (fun st a => click lesson a st) actions
                      initial))
      by (apply fold_in_bounds; exact H0).
    split; [exact Hb |].
    apply in_bounds_currentStep. exact Hb.
  - intros st H.
    pose proof (prevStep_in_bounds lesson st H) as Hp.
    pose proof (nextStep_in_bounds lesson st H) as Hn.
    unfold in_bounds in Hp, Hn. lia.
Qed.

Lemma step_index_in_bounds_witness :
  exists st,
    run two_steps [NextStep; NextStep; Dot 7; PrevStep; PrevStep; Dot 1;
                   NextStep]
    = Some st /\
    0 <= currentStepIndex st <= 1 /\
    exists step, currentStep two_steps st = Some step.
Proof.
  apply (proj1 (step_index_in_bounds two_steps ltac:(discriminate))
           [NextStep; NextStep; Dot 7; PrevStep; PrevStep; Dot 1;
            NextStep]).
Defined.
End LessonViewerFacts.

(** ** The status page *)

Module StatusPageFacts.
Import Js Api StatusPage Samples.

(** The first index at which a test succeeds. *)
Lemma first_true (f : nat -> bool) k :
  f k = true ->
  exists k0, (k0 <= k)%nat /\ f k0 = true /\
             forall j, (j < k0)%nat -> f j = false.
Proof.
  induction k as [k IH] using lt_wf_ind. intros Hk.
  destruct (existsb f (seq 0 k)) eqn:Ex.
  - apply existsb_exists in Ex. destruct Ex as [j [Hin Hj]].
    apply in_seq in Hin.
    destruct (IH j ltac:(lia) Hj) as [k0 [Hle H0]].
    exists k0. split; [lia | exact H0].
  - exists k. split; [lia |]. split; [exact Hk |].
    intros j Hj. destruct (f j) eqn:Ej; [| reflexivity].
    assert (Hc : existsb f (seq 0 k) = true).
    { apply existsb_exists. exists j. split; [| exact Ej].
      apply in_seq. lia. }
    congruence.
Qed.

Lemma some_or_none (f : nat -> bool) n :
  (exists j, (j < n)%nat /\ f j = true) \/
  (forall j, (j < n)%nat -> f j = false).
Proof.
  destruct (existsb f (seq 0 n)) eqn:Ex.
  - left. apply existsb_exists in Ex. destruct Ex as [j [Hin Hj]].
    apply in_seq in Hin. exists j. split; [lia | exact Hj].
  - right. intros j Hj. destruct (f j) eqn:Ej; [| reflexivity].
    assert (Hc : existsb f (seq 0 n) = true).
    { apply existsb_exists. exists j. split; [| exact Ej].
      apply in_seq. lia. }
    congruence.
Qed.

Lemma terminal_not_nullish status :
  terminal_status status = true -> nullish status = false.
Proof. destruct status; simpl; intros H; try discriminate H; reflexivity. Qed.

Lemma get_not_nullish v key :
  nullish v = false -> get v key = Some (get_opt v key).
Proof. unfold get. intros ->. reflexivity. Qed.

Section Handler.
Variable TypeError_message : JsValue -> string -> string.

Abbreviation pollStatus_then := (pollStatus_then TypeError_message).

Lemma terminal_stops status st :
  terminal_status status = true ->
  pollStatus_then (Resolved status) st = (mkState status false None, []).
Proof.
  intros H. pose proof (terminal_not_nullish status H) as Hn.
  unfold terminal_status in H. unfold StatusPage.pollStatus_then.
  rewrite (get_not_nullish status "status" Hn).
  destruct (is_string (get_opt status "status") "completed") eqn:Hc; simpl.
  - destruct (truthy (get_opt status "lesson_id")); [reflexivity |].
    destruct (is_string (get_opt status "status") "error"); reflexivity.
  - simpl in H. rewrite H. reflexivity.
Qed.

Lemma non_terminal_polls_again status st :
  nullish status = false ->
  terminal_status status = false ->
  pollStatus_then (Resolved status) st
  = (mkState status (loading st) None, [PollStatusIn 2000]).
Proof.
  intros Hn H. unfold terminal_status in H.
  unfold StatusPage.pollStatus_then.
  rewrite (get_not_nullish status "status" Hn).
  apply orb_false_iff in H. destruct H as [Hc He].
  rewrite Hc, He. reflexivity.
Qed.

Lemma nullish_stops status st :
  nullish status = true ->
  pollStatus_then (Resolved status) st
  = (mkState status false (Some (TypeError_message status "status")), []).
Proof.
  intros Hn. unfold StatusPage.pollStatus_then, get. rewrite Hn.
  reflexivity.
Qed.

Lemma timers_set p st :
  p <> Pending ->
  snd (pollStatus_then p st)
  = if ends_polling p then [] else [PollStatusIn 2000].
Proof.
  intros Hp. destruct p as [status | m | ]; cbn [ends_polling].
  - destruct (nullish status) eqn:N; cbn [orb].
    + rewrite nullish_stops by assumption. reflexivity.
    + destruct (terminal_status status) eqn:T.
      * rewrite terminal_stops by assumption. reflexivity.
      * rewrite non_terminal_polls_again by assumption. reflexivity.
  - reflexivity.
  - contradiction.
Qed.
End Handler.

Section Page.
Variable REACT_APP_API_URL : option string.
Variable network : nat -> Request -> Outcome.
Variable TypeError_message : JsValue -> string -> string.
Variable jobId : string.

Abbreviation status_at := (status_at REACT_APP_API_URL network jobId).
Abbreviation pollStatus :=
  (pollStatus REACT_APP_API_URL network TypeError_message jobId).
Abbreviation fire :=
  (fun fuel => fire REACT_APP_API_URL network TypeError_message fuel jobId).
Abbreviation poll :=
  (fun fuel => poll REACT_APP_API_URL network TypeError_message fuel jobId).

Lemma status_at_settles n : status_at n <> Pending.
Proof.
  apply (ApiFacts.settle_not_pending REACT_APP_API_URL network n
           (GetJobStatus jobId)).
Qed.

Lemma pollStatus_step st w :
  timers_of (pollStatus st w)
  = (if ends_polling (status_at (List.length (sent w)))
     then [] else [PollStatusIn 2000]) /\
  requests_of (pollStatus st w) = S (List.length (sent w)).
Proof.
  unfold timers_of, requests_of, StatusPage.pollStatus. simpl. split.
  - apply timers_set. apply status_at_settles.
  - rewrite length_app. simpl. lia.
Qed.

Lemma fire_no_timer fuel st w : fire fuel [] st w = (st, [], w).
Proof. destruct fuel; reflexivity. Qed.

(** The loop started with one timer: it stops with the first call
    that ends the polling, having issued no request after it, and is
    still armed as long as no such call has been seen. *)
Lemma fire_spec fuel :
  forall t st w,
    (forall k,
        (k < fuel)%nat ->
        ends_polling (status_at (List.length (sent w) + k)) = true ->
        (forall j, (j < k)%nat ->
                   ends_polling (status_at (List.length (sent w) + j))
                   = false) ->
        timers_of (fire fuel [t] st w) = [] /\
        requests_of (fire fuel [t] st w)
        = (List.length (sent w) + k + 1)%nat) /\
    ((forall k, (k < fuel)%nat ->
                ends_polling (status_at (List.length (sent w) + k))
                = false) ->
     timers_of (fire fuel [t] st w)
     = (match fuel with O => [t] | S _ => [PollStatusIn 2000] end) /\
     requests_of (fire fuel [t] st w)
     = (List.length (sent w) + fuel)%nat).
Proof.
  induction fuel as [| fuel IH]; intros t st w.
  - split.
    + intros k Hk. lia.
    + intros _. unfold timers_of, requests_of. simpl. split;
        [reflexivity | lia].
  - destruct (pollStatus_step st w) as [Ht Hr].
    cbn [StatusPage.fire].
    destruct (pollStatus st w) as [[st' set] w'] eqn:E.
    unfold timers_of, requests_of in Ht, Hr. simpl in Ht, Hr.
    cbn [app].
    destruct (ends_polling (status_at (List.length (sent w)))) eqn:E0;
      subst set.
    + rewrite fire_no_timer. unfold timers_of, requests_of. simpl.
      split.
      * intros k Hk Hend Hbefore. destruct k as [| k].
        -- split; [reflexivity | lia].
        -- specialize (Hbefore 0%nat ltac:(lia)).
           rewrite Nat.add_0_r in Hbefore. congruence.
      * intros Hnone. specialize (Hnone 0%nat ltac:(lia)).
        rewrite Nat.add_0_r in Hnone. congruence.
    + destruct (IH (PollStatusIn 2000) st' w') as [IHa IHb].
      rewrite Hr in IHa, IHb. split.
      * intros k Hk Hend Hbefore. destruct k as [| k].
        -- rewrite Nat.add_0_r in Hend. congruence.
        -- destruct (IHa k) as [Ha1 Ha2]; [lia | | |].
           ++ rewrite <- Hend. f_equal. f_equal. lia.
           ++ intros j Hj. rewrite <- (Hbefore (S j)) by lia.
              f_equal. f_equal. lia.
           ++ split; [exact Ha1 | rewrite Ha2; lia].
      * intros Hnone. destruct IHb as [Hb1 Hb2].
        -- intros k Hk. rewrite <- (Hnone (S k)) by lia.
           f_equal. f_equal. lia.
        -- split; [| rewrite Hb2; lia].
           rewrite Hb1. destruct fuel; reflexivity.
Qed.

Lemma poll_as_fire fuel w :
  jobId <> "" ->
  poll fuel w = fire (S fuel) [PollStatusIn 0] initial w.
Proof.
  intros Hne. unfold StatusPage.poll, useEffect.
  destruct (String.eqb_spec jobId ""); [contradiction |].
  cbn [StatusPage.fire].
  destruct (pollStatus initial w) as [[st' set] w']. reflexivity.
Qed.
End Page.

(** C5, as the code has it.  A status response whose status is
    'completed' or 'error' sets no timer; every other response body
    that is not null or undefined, whatever else it holds (a
    [lesson_id] that is null, no [status] at all), sets exactly one
    timer, for [pollStatus] in 2000 ms; a rejected request sets none;
    and a body that is null or undefined sets none either, because
    reading its [status] throws into the same [catch], which stops the
    loading and stores the message.  For a page with a job id the
    polling has ended after [fuel] further timers exactly when one of
    the first [fuel + 1] calls returned a terminal status, was rejected
    or resolved with null or undefined; the calls issued are those up
    to and including the first such call, and as long as there is none
    one timer stays armed. *)
Theorem polling_stops_at_terminal (REACT_APP_API_URL : option string)
  (network : nat -> Request -> Outcome)
  (TypeError_message : JsValue -> string -> string) (jobId : string) :
  (forall status st,
      terminal_status status = true ->
      snd (pollStatus_then TypeError_message (Resolved status) st) = []) /\
  (forall status st,
      nullish status = false ->
      terminal_status status = false ->
      snd (pollStatus_then TypeError_message (Resolved status) st)
      = [PollStatusIn 2000]) /\
  (forall m st,
      snd (pollStatus_then TypeError_message (Rejected m) st) = []) /\
  (forall status st,
      nullish status = true ->
      pollStatus_then TypeError_message (Resolved status) st
      = (mkState status false (Some (TypeError_message status "status")),
         [])) /\
  (jobId <> "" ->
   forall fuel w,
     let ends k :=
       ends_polling
         (status_at REACT_APP_API_URL network jobId
            (List.length (sent w) + k)) in
     let r :=
       poll REACT_APP_API_URL network TypeError_message fuel jobId w in
     ((exists k, (k <= fuel)%nat /\ ends k = true) <-> timers_of r = []) /\
     (forall k,
         (k <= fuel)%nat -> ends k = true ->
         (forall j, (j < k)%nat -> ends j = false) ->
         requests_of r = (List.length (sent w) + k + 1)%nat) /\
     ((forall k, (k <= fuel)%nat -> ends k = false) ->
      timers_of r = [PollStatusIn 2000] /\
      requests_of r = (List.length (sent w) + fuel + 1)%nat)).
Proof.
  split; [| split; [| split; [| split]]].
  - intros status st H. rewrite terminal_stops by assumption. reflexivity.
  - intros status st Hn H.
    rewrite non_terminal_polls_again by assumption. reflexivity.
  - reflexivity.
  - intros status st Hn. apply nullish_stops. exact Hn.
  - intros Hne fuel w. cbv zeta.
    rewrite poll_as_fire by assumption.
    destruct (fire_spec REACT_APP_API_URL network TypeError_message jobId
                (S fuel) (PollStatusIn 0) initial w) as [Hstop Hgo].
    split; [| split].
    + split.
      * intros [k [Hk Hend]].
        destruct (first_true
                    (fun j => ends_polling
                                (status_at REACT_APP_API_URL network jobId
                                   (List.length (sent w) + j)))
                    k Hend) as [k0 [Hle [Hend0 Hbefore]]].
        apply (Hstop k0 ltac:(lia) Hend0 Hbefore).
      * intros Hnil.
        destruct (some_or_none
                    (fun j => ends_polling
                                (status_at REACT_APP_API_URL network jobId
                                   (List.length (sent w) + j)))
                    (S fuel)) as [[j [Hj Hend]] | Hnone].
        -- exists j. split; [lia | exact Hend].
        -- destruct (Hgo Hnone) as [Harmed _].
           rewrite Harmed in Hnil. discriminate.
    + intros k Hk Hend Hbefore.
      apply (Hstop k ltac:(lia) Hend Hbefore).
    + intros Hnone. destruct Hgo as [Ha Hb].
      * intros k Hk. apply Hnone. lia.
      * split; [exact Ha | rewrite Hb; lia].
Qed.

(** C5, as stated, fails: a backend that answers every status query
    with 200 and the body [null] reports no terminal status and rejects
    no request, and the polling ends with the first call. *)
Lemma polling_stops_on_null_body :
  let r := poll None answers_null cannot_read 5 "j1" (mkWorld []) in
  timers_of r = [] /\ requests_of r = 1%nat /\
  forall n,
    terminal_or_rejected (status_at None answers_null "j1" n) = false.
Proof.
  cbv zeta. split; [reflexivity |]. split; [reflexivity |].
  intros n. reflexivity.
Qed.

Lemma polling_stops_at_terminal_witness :
  requests_of (poll None finishes_third cannot_read 5 "j1" (mkWorld []))
  = 3%nat.
Proof.
  pose proof (polling_stops_at_terminal None finishes_third cannot_read "j1")
    as [_ [_ [_ [_ H]]]].
  specialize (H ltac:(discriminate) 5%nat (mkWorld [])).
  cbv zeta in H. destruct H as [_ [H _]].
  apply (H 2%nat).
  - lia.
  - vm_compute. reflexivity.
  - intros j Hj.
    destruct j as [| [| j]]; [vm_compute; reflexivity .. | lia].
Defined.
End StatusPageFacts.

(** ** The LaTeX clean-up of MathRenderer *)

Module MathRendererFacts.
Import JsString RegExp MathRenderer.
Local Open Scope list_scope.
Local Open Scope nat_scope.

(** *** Prefixes and spans *)

Lemma strip_app cs : forall s rest, strip cs s = Some rest -> s = cs ++ rest.
Proof.
  induction cs as [| a cs IH]; intros s rest; simpl.
  - intros H. injection H as ->. reflexivity.
  - destruct s as [| x s]; [discriminate |].
    destruct (N.eqb_spec a x) as [-> | _]; [| discriminate].
    intros H. f_equal. apply IH. exact H.
Qed.

Lemma strip_prefix cs rest : strip cs (cs ++ rest) = Some rest.
Proof.
  induction cs as [| a cs IH]; simpl; [reflexivity |].
  rewrite N.eqb_refl. exact IH.
Qed.

Lemma strip_shorter a b s :
  is_some (strip (a ++ b) s) = true -> is_some (strip a s) = true.
Proof.
  destruct (strip (a ++ b) s) as [rest |] eqn:E; [| discriminate].
  intros _. apply strip_app in E. subst s.
  rewrite <- app_assoc, strip_prefix. reflexivity.
Qed.

Lemma span_app ok s : s = fst (span ok s) ++ snd (span ok s).
Proof.
  induction s as [| x s IH]; simpl; [reflexivity |].
  destruct (ok x); [| reflexivity].
  destruct (span ok s) as [c r]. simpl in *. f_equal. exact IH.
Qed.

Lemma span_all ok s : Forall (fun x => ok x = true) (fst (span ok s)).
Proof.
  induction s as [| x s IH]; simpl; [constructor |].
  destruct (ok x) eqn:E; [| constructor].
  destruct (span ok s) as [c r]. simpl in *. constructor; assumption.
Qed.

Lemma consumed_app (m rest : JsString.t) : consumed (m ++ rest) rest = m.
Proof.
  unfold consumed. rewrite length_app.
  replace (List.length m + List.length rest - List.length rest)
    with (List.length m + 0) by lia.
  rewrite firstn_app_2. simpl. apply app_nil_r.
Qed.

(** *** The two patterns *)

(** With a continuation that wants a [c] next, the greedy run ends
    where the longest run ends: giving characters back never helps. *)
Lemma more_not_longest c s (K : JsString.t -> option Match) :
  (forall x r, x <> c -> K (x :: r) = None) ->
  more_not c s K = K (snd (span (fun x => negb (x =? c)%N) s)).
Proof.
  intros HK. induction s as [| x s IH]; simpl; [reflexivity |].
  destruct (N.eqb_spec x c) as [-> | Hne]; simpl; [reflexivity |].
  rewrite IH. destruct (span _ s) as [c0 r]. simpl.
  rewrite (HK x s Hne). destruct (K r); reflexivity.
Qed.

Lemma close_brace_string : of_string "}" = [close_brace].
Proof. reflexivity. Qed.

(** The regular expression finds what [macro_at] describes. *)
Lemma exec_text_macro s :
  exec text_macro s
  = match macro_at not_close s with
    | Some (c, rest) => Some (rest, [c])
    | None => None
    end.
Proof.
  unfold exec, text_macro, macro_at. cbn [run].
  destruct (strip (of_string "\text{") s) as [body |]; [| reflexivity].
  destruct body as [| x s']; [reflexivity |].
  cbn [span]. unfold not_close at 1.
  destruct (N.eqb_spec x close_brace) as [-> | Hne]; [reflexivity |].
  cbn [negb]. rewrite close_brace_string.
  rewrite more_not_longest.
  - change (fun x0 : N => negb (x0 =? close_brace)%N) with not_close.
    pose proof (span_app not_close s') as Hs.
    destruct (span not_close s') as [c0 r]. simpl in Hs. cbn [snd].
    destruct r as [| y r']; [reflexivity |].
    cbn [strip]. rewrite N.eqb_sym.
    destruct (y =? close_brace)%N; [| reflexivity].
    cbn [app]. do 3 f_equal.
    rewrite Hs. change (x :: c0 ++ y :: r') with ((x :: c0) ++ y :: r').
    apply consumed_app.
  - intros y r Hy. cbn [strip].
    destruct (N.eqb_spec close_brace y) as [E | _]; [| reflexivity].
    congruence.
Qed.

Lemma macro_at_some ok s c rest :
  macro_at ok s = Some (c, rest) ->
  s = of_string "\text{" ++ c ++ of_string "}" ++ rest /\
  c <> [] /\ Forall (fun x => ok x = true) c.
Proof.
  unfold macro_at.
  destruct (strip (of_string "\text{") s) as [body |] eqn:E; [| discriminate].
  apply strip_app in E.
  pose proof (span_app ok body) as Hs. pose proof (span_all ok body) as Ha.
  destruct (span ok body) as [c0 r]. simpl in Hs, Ha.
  destruct c0 as [| x0 c0]; [discriminate |].
  destruct r as [| y r]; [discriminate |].
  destruct (N.eqb_spec y close_brace) as [-> | _]; [| discriminate].
  intros H. injection H as <- <-.
  split; [| split; [discriminate | exact Ha]].
  rewrite E, Hs. reflexivity.
Qed.

Lemma exec_chars w s :
  exec (Chars w) s
  = match strip w s with Some rest => Some (rest, []) | None => None end.
Proof. reflexivity. Qed.

(** *** Global replacement *)

Lemma replace_skip p r (m rest : JsString.t) :
  replace_from p r (List.length m) (m ++ rest) = replace_from p r 0 rest.
Proof.
  induction m as [| x m IH]; simpl; [| exact IH].
  destruct rest; reflexivity.
Qed.

Lemma replace_hit p r (m rest : JsString.t) caps :
  m <> [] ->
  exec p (m ++ rest) = Some (rest, caps) ->
  replace_from p r 0 (m ++ rest) = expand r caps ++ replace_from p r 0 rest.
Proof.
  intros Hm Hex. destruct m as [| x m]; [contradiction |].
  cbn [app replace_from]. cbn [app] in Hex. rewrite Hex.
  replace (List.length (x :: m ++ rest) - List.length rest)
    with (S (List.length m))
    by (change (List.length (x :: m ++ rest))
          with (S (List.length (m ++ rest)));
        rewrite length_app; lia).
  rewrite replace_skip. reflexivity.
Qed.

Lemma replace_miss p r x (s : JsString.t) :
  exec p (x :: s) = None ->
  replace_from p r 0 (x :: s) = x :: replace_from p r 0 s.
Proof. intros Hex. cbn [replace_from]. rewrite Hex. reflexivity. Qed.

Lemma replace_end p r :
  exec p [] = None -> replace_from p r 0 [] = [].
Proof. intros Hex. cbn [replace_from]. rewrite Hex. reflexivity. Qed.

Lemma somewhere_false here x (s : JsString.t) :
  somewhere here (x :: s) = false ->
  here (x :: s) = false /\ somewhere here s = false.
Proof. simpl. intros H. apply orb_false_iff in H. exact H. Qed.

Lemma somewhere_weaken (f g : JsString.t -> bool) s :
  (forall r, g r = true -> f r = true) ->
  somewhere f s = false -> somewhere g s = false.
Proof.
  intros Hfg. induction s as [| x s IH]; simpl; intros H;
    apply orb_false_iff in H; destruct H as [H1 H2].
  - destruct (g []) eqn:E; [| reflexivity].
    apply Hfg in E. congruence.
  - rewrite (IH H2).
    destruct (g (x :: s)) eqn:E; [| reflexivity].
    apply Hfg in E. congruence.
Qed.

(** Where the pattern matches nowhere, the string is returned as it
    is. *)
Lemma replace_nowhere p r s :
  somewhere (fun t => is_some (exec p t)) s = false ->
  replace_all p r s = s.
Proof.
  unfold replace_all. induction s as [| x s IH]; intros H.
  - simpl in H. apply replace_end.
    destruct (exec p []); [discriminate | reflexivity].
  - apply somewhere_false in H. destruct H as [H1 H2].
    rewrite replace_miss.
    + rewrite IH by exact H2. reflexivity.
    + destruct (exec p (x :: s)); [discriminate | reflexivity].
Qed.

Lemma text_pass_replace s :
  text_pass s (replace_all text_macro mathrm s).
Proof.
  unfold replace_all.
  induction s as [s IH] using (induction_ltof1 _ (@List.length N)).
  unfold ltof in IH.
  destruct s as [| x s].
  - rewrite replace_end by reflexivity. constructor.
  - destruct (macro_at not_close (x :: s)) as [[c rest] |] eqn:E.
    + pose proof (exec_text_macro (x :: s)) as Hex. rewrite E in Hex.
      apply macro_at_some in E. destruct E as [Hs [Hc Hall]].
      rewrite Hs in Hex |- *.
      rewrite !app_assoc in Hex |- *.
      rewrite replace_hit with (caps := [c]).
      * rewrite <- !app_assoc.
        change (expand mathrm [c])
          with (of_string "\mathrm{" ++ c ++ of_string "}" ++ []).
        rewrite <- !app_assoc. cbn [app].
        apply (text_hit c rest).
        -- exact Hc.
        -- eapply Forall_impl; [| exact Hall].
           intros a Ha. unfold not_close in Ha.
           destruct (N.eqb_spec a close_brace); [discriminate | assumption].
        -- apply IH. rewrite Hs. rewrite !length_app. simpl. lia.
      * destruct c; [contradiction | discriminate].
      * exact Hex.
    + rewrite replace_miss.
      * apply text_keep; [exact E |]. apply IH. simpl. lia.
      * rewrite exec_text_macro, E. reflexivity.
Qed.

Lemma delete_pass_replace w s :
  w <> [] ->
  delete_pass w s (replace_all (Chars w) [] s).
Proof.
  intros Hw. unfold replace_all.
  induction s as [s IH] using (induction_ltof1 _ (@List.length N)).
  unfold ltof in IH.
  destruct (strip w s) as [rest |] eqn:E.
  - pose proof (exec_chars w s) as Hex. rewrite E in Hex.
    apply strip_app in E. subst s.
    rewrite replace_hit with (caps := []); [| exact Hw | exact Hex].
    apply delete_hit. apply IH.
    rewrite length_app. destruct w; [contradiction | simpl; lia].
  - destruct s as [| x s].
    + rewrite replace_end; [constructor |].
      rewrite exec_chars, E. reflexivity.
    + rewrite replace_miss by (rewrite exec_chars, E; reflexivity).
      apply delete_keep; [exact E |]. apply IH. simpl. lia.
Qed.

(** *** Trimming *)

Lemma trimStart_split s :
  exists l, s = l ++ trimStart s /\ forallb is_whitespace l = true.
Proof.
  induction s as [| x s [l [Hs Hl]]]; simpl.
  - exists []. split; reflexivity.
  - destruct (is_whitespace x) eqn:E.
    + exists (x :: l). simpl. rewrite E, Hl. split; [f_equal; exact Hs |].
      reflexivity.
    + exists []. split; reflexivity.
Qed.

Lemma trimStart_head s :
  match trimStart s with
  | [] => True
  | c :: _ => is_whitespace c = false
  end.
Proof.
  induction s as [| x s IH]; simpl; [exact I |].
  destruct (is_whitespace x) eqn:E; [exact IH | exact E].
Qed.

Lemma trimStart_fixed s :
  match s with [] => True | c :: _ => is_whitespace c = false end ->
  trimStart s = s.
Proof. destruct s as [| c s]; simpl; [reflexivity |]. intros ->. reflexivity. Qed.

Lemma last_rev_head (x : N) (s : JsString.t) d :
  last (rev (x :: s)) d = x.
Proof. simpl. apply last_last. Qed.

Lemma trim_trimmed s : trimmed s (trim s).
Proof.
  unfold trimmed, trim, trimEnd.
  destruct (trimStart_split s) as [l [Hs Hl]].
  destruct (trimStart_split (rev (trimStart s))) as [r [Hr Hrw]].
  pose proof (trimStart_head s) as Hhead.
  pose proof (trimStart_head (rev (trimStart s))) as Hlast.
  set (t := trimStart s) in *.
  set (u := trimStart (rev t)) in *.
  exists l, (rev r).
  assert (Ht : t = rev u ++ rev r).
  { rewrite <- rev_app_distr, <- Hr. symmetry. apply rev_involutive. }
  split; [rewrite <- Ht; exact Hs |].
  split; [exact Hl |].
  split.
  - rewrite forallb_forall in Hrw |- *. intros x Hx.
    apply Hrw. apply in_rev. exact Hx.
  - destruct u as [| y u']; [reflexivity |].
    unfold edge_whitespace.
    destruct (rev (y :: u')) as [| c0 o] eqn:Eo.
    + reflexivity.
    + assert (Hl0 : last (c0 :: o) c0 = y).
      { rewrite <- Eo. apply last_rev_head. }
      rewrite Hl0, Hlast.
      rewrite Ht in Hhead. cbn [app] in Hhead. rewrite Hhead. reflexivity.
Qed.

Lemma trim_fixed s : edge_whitespace s = false -> trim s = s.
Proof.
  unfold trim, trimEnd. intros H.
  destruct s as [| c s]; [reflexivity |].
  unfold edge_whitespace in H. apply orb_false_iff in H.
  destruct H as [Hc Hl].
  rewrite (trimStart_fixed (c :: s)) by exact Hc.
  rewrite trimStart_fixed; [apply rev_involutive |].
  destruct (rev (c :: s)) as [| y u] eqn:E; [exact I |].
  assert (Hy : last (c :: s) c = y).
  { rewrite <- (rev_involutive (c :: s)), E. apply last_rev_head. }
  rewrite <- Hy. exact Hl.
Qed.

Lemma displaystyle_not_empty : of_string "\displaystyle" <> [].
Proof. discriminate. Qed.

Lemma no_text_no_macro ok s :
  contains (of_string "\text") s = false -> has_text_macro ok s = false.
Proof.
  unfold contains, has_text_macro. apply somewhere_weaken.
  intros r Hr. unfold macro_at in Hr.
  destruct (strip (of_string "\text{") r) as [body |] eqn:E;
    [| discriminate].
  apply (strip_shorter (of_string "\text") [open_brace]).
  change (of_string "\text" ++ [open_brace]) with (of_string "\text{").
  rewrite E. reflexivity.
Qed.

Lemma text_macro_nowhere s :
  has_text_macro not_close s = false ->
  replace_all text_macro mathrm s = s.
Proof.
  intros H. apply replace_nowhere.
  revert H. unfold has_text_macro. apply somewhere_weaken.
  intros r. rewrite exec_text_macro.
  destruct (macro_at not_close r) as [[c rest] |]; [reflexivity |].
  discriminate.
Qed.

Lemma displaystyle_nowhere s :
  contains (of_string "\displaystyle") s = false ->
  replace_all displaystyle [] s = s.
Proof.
  intros H. apply replace_nowhere.
  revert H. unfold contains. apply somewhere_weaken.
  intros r. unfold displaystyle. rewrite exec_chars.
  destruct (strip (of_string "\displaystyle") r); [reflexivity |].
  discriminate.
Qed.

(** *** The passes determine the result *)

Lemma span_run ok c y rest :
  Forall (fun x => ok x = true) c ->
  ok y = false ->
  span ok (c ++ y :: rest) = (c, y :: rest).
Proof.
  intros Hc Hy. induction Hc as [| x c Hx _ IH]; simpl.
  - rewrite Hy. reflexivity.
  - rewrite Hx, IH. reflexivity.
Qed.

Lemma macro_at_complete c rest :
  c <> [] ->
  Forall (fun x => x <> close_brace) c ->
  macro_at not_close (of_string "\text{" ++ c ++ of_string "}" ++ rest)
  = Some (c, rest).
Proof.
  intros Hne Hall. unfold macro_at. rewrite strip_prefix.
  rewrite close_brace_string. cbn [app].
  rewrite span_run.
  - destruct c; [contradiction |]. rewrite N.eqb_refl. reflexivity.
  - eapply Forall_impl; [| exact Hall].
    intros a Ha. unfold not_close.
    destruct (N.eqb_spec a close_brace); [contradiction | reflexivity].
  - unfold not_close. rewrite N.eqb_refl. reflexivity.
Qed.

Lemma replace_text_hit c rest :
  c <> [] ->
  Forall (fun x => x <> close_brace) c ->
  replace_from text_macro mathrm 0
    (of_string "\text{" ++ c ++ of_string "}" ++ rest)
  = of_string "\mathrm{" ++ c ++ of_string "}"
    ++ replace_from text_macro mathrm 0 rest.
Proof.
  intros Hne Hall.
  pose proof (exec_text_macro
                (of_string "\text{" ++ c ++ of_string "}" ++ rest)) as Hex.
  rewrite macro_at_complete in Hex by assumption.
  assert (E : of_string "\text{" ++ c ++ of_string "}" ++ rest
              = (of_string "\text{" ++ c ++ of_string "}") ++ rest)
    by (rewrite <- !app_assoc; reflexivity).
  rewrite E in Hex |- *.
  rewrite (replace_hit text_macro mathrm
             (of_string "\text{" ++ c ++ of_string "}") rest [c]).
  - change (expand mathrm [c])
      with (of_string "\mathrm{" ++ c ++ of_string "}" ++ []).
    rewrite <- !app_assoc. reflexivity.
  - discriminate.
  - exact Hex.
Qed.

Lemma text_pass_result s out :
  text_pass s out -> out = replace_all text_macro mathrm s.
Proof.
  unfold replace_all.
  induction 1 as [| c rest out Hne Hall _ IH | x s out Hnone _ IH].
  - rewrite replace_end by reflexivity. reflexivity.
  - rewrite replace_text_hit by assumption. rewrite <- IH. reflexivity.
  - rewrite replace_miss by (rewrite exec_text_macro, Hnone; reflexivity).
    rewrite <- IH. reflexivity.
Qed.

Lemma delete_pass_result w s out :
  w <> [] ->
  delete_pass w s out -> out = replace_all (Chars w) [] s.
Proof.
  intros Hw. unfold replace_all.
  induction 1 as [| rest out _ IH | x s out Hnone _ IH].
  - rewrite replace_end; [reflexivity |].
    rewrite exec_chars. destruct w; [contradiction | reflexivity].
  - rewrite replace_hit with (caps := []); [exact IH | exact Hw |].
    rewrite exec_chars, strip_prefix. reflexivity.
  - rewrite replace_miss by (rewrite exec_chars, Hnone; reflexivity).
    rewrite <- IH. reflexivity.
Qed.

Lemma trimStart_whitespace_app l s :
  forallb is_whitespace l = true -> trimStart (l ++ s) = trimStart s.
Proof.
  induction l as [| x l IH]; simpl; [reflexivity |].
  intros H. apply andb_true_iff in H. destruct H as [Hx Hl].
  rewrite Hx. apply IH. exact Hl.
Qed.

Lemma trimStart_whitespace l :
  forallb is_whitespace l = true -> trimStart l = [].
Proof.
  intros H. rewrite <- (app_nil_r l).
  rewrite trimStart_whitespace_app by exact H. reflexivity.
Qed.

Lemma forallb_rev (f : N -> bool) l :
  forallb f l = true -> forallb f (rev l) = true.
Proof.
  rewrite !forallb_forall. intros H x Hx. apply H. apply in_rev. exact Hx.
Qed.

Lemma trimmed_result s out : trimmed s out -> out = trim s.
Proof.
  intros [l [r [Hs [Hl [Hr He]]]]]. subst s.
  unfold trim, trimEnd. rewrite trimStart_whitespace_app by exact Hl.
  destruct out as [| c o].
  - cbn [app]. rewrite (trimStart_whitespace r) by exact Hr. reflexivity.
  - unfold edge_whitespace in He. apply orb_false_iff in He.
    destruct He as [Hc Hlast].
    rewrite (trimStart_fixed ((c :: o) ++ r)) by exact Hc.
    rewrite rev_app_distr.
    rewrite trimStart_whitespace_app by (apply forallb_rev; exact Hr).
    rewrite trimStart_fixed; [symmetry; apply rev_involutive |].
    destruct (rev (c :: o)) as [| y u] eqn:E; [exact I |].
    assert (Hy : last (c :: o) c = y).
    { rewrite <- (rev_involutive (c :: o)), E. apply last_rev_head. }
    rewrite <- Hy. exact Hlast.
Qed.

(** C8, as the code has it.  [cleanLatex] is three passes: from left
    to right each [\text{c}] whose content [c] is a non-empty run of
    characters other than [}] (an opening brace may be among them)
    becomes [\mathrm{c}] and every other character is kept; then each
    occurrence of [\displaystyle] in the result is dropped and every
    other character is kept; then leading and trailing whitespace is
    removed.  A string with no such [\text{c}], no [\displaystyle] and
    no whitespace at either end is returned unchanged, and so is in
    particular a string with no [\text] at all that has neither of the
    other two. *)
Theorem cleanLatex_passes (latex : JsString.t) :
  (forall out,
      (exists t1 t2,
          text_pass latex t1 /\
          delete_pass (of_string "\displaystyle") t1 t2 /\
          trimmed t2 out)
      <-> out = cleanLatex latex) /\
  (has_text_macro not_close latex = false ->
   contains (of_string "\displaystyle") latex = false ->
   edge_whitespace latex = false ->
   cleanLatex latex = latex) /\
  (contains (of_string "\text") latex = false ->
   contains (of_string "\displaystyle") latex = false ->
   edge_whitespace latex = false ->
   cleanLatex latex = latex /\
   cleanLatex (cleanLatex latex) = cleanLatex latex).
Proof.
  assert (Hfix : has_text_macro not_close latex = false ->
                 contains (of_string "\displaystyle") latex = false ->
                 edge_whitespace latex = false ->
                 cleanLatex latex = latex).
  { intros Ht Hd He. unfold cleanLatex.
    rewrite text_macro_nowhere by exact Ht.
    rewrite displaystyle_nowhere by exact Hd.
    apply trim_fixed. exact He. }
  split; [| split].
  - intros out. split.
    + intros [t1 [t2 [H1 [H2 H3]]]].
      apply text_pass_result in H1.
      apply delete_pass_result in H2; [| apply displaystyle_not_empty].
      apply trimmed_result in H3. subst. reflexivity.
    + intros ->.
      exists (replace_all text_macro mathrm latex),
        (replace_all displaystyle []
           (replace_all text_macro mathrm latex)).
      split; [apply text_pass_replace |].
      split; [apply delete_pass_replace; apply displaystyle_not_empty |].
      apply trim_trimmed.
  - exact Hfix.
  - intros Ht Hd He.
    assert (H : cleanLatex latex = latex).
    { apply Hfix; [apply no_text_no_macro; exact Ht | exact Hd | exact He]. }
    split; [exact H | rewrite !H; reflexivity].
Qed.

(** C8, as stated, fails on nested braces: the string below has no
    [\text{c}] with brace-free content, no [\displaystyle] and no
    whitespace at its ends, and is changed all the same. *)
Lemma cleanLatex_changes_nested_braces :
  let latex := of_string "\text{a{b}c}" in
  has_text_macro no_brace latex = false /\
  contains (of_string "\displaystyle") latex = false /\
  edge_whitespace latex = false /\
  cleanLatex latex = of_string "\mathrm{a{b}c}" /\
  cleanLatex latex <> latex.
Proof.
  cbv zeta. repeat split; try (vm_compute; reflexivity).
  vm_compute. discriminate.
Qed.

Lemma cleanLatex_passes_witness :
  cleanLatex (of_string "x^2 + \frac{1}{2}") = of_string "x^2 + \frac{1}{2}".
Proof.
  apply (proj1 (proj2 (cleanLatex_passes (of_string "x^2 + \frac{1}{2}"))));
    vm_compute; reflexivity.
Defined.
End MathRendererFacts.

(** ** More on the API client *)

Module ApiMore.
Import Js Api ApiFacts Samples.

Section Client.
Variable REACT_APP_API_URL : option string.
Variable network : nat -> Request -> Outcome.

Abbreviation settle := (settle network).
Abbreviation perform := (perform REACT_APP_API_URL network).
Abbreviation request_of := (request_of REACT_APP_API_URL).

Lemma interceptor_server_error e body :
  response e = Some (mkResponse 500 body) ->
  response_error_interceptor e = "Server error occurred".
Proof.
  intros H. unfold response_error_interceptor, response_status_is.
  rewrite H. reflexivity.
Qed.


Lemma adapter_network_failure req latency :
  latency < timeout req ->
  adapter req (NetworkFailure latency)
  = Failed (mkAxiosError "Network Error" (Some "ERR_NETWORK") None).
Proof.
  intros Hlat. unfold adapter.
  replace ((0 <? timeout req) && (timeout req <=? latency)) with false
    by (symmetry; apply andb_false_iff; right; apply Z.leb_gt; lia).
  reflexivity.
Qed.

(** X1.  A response with status 500 that arrives within the timeout
    makes each of the three operations reject with the message 'Server
    error occurred', whatever the body says. *)
Theorem server_error_mapping (c : Call) (w : World) latency body :
  network (List.length (sent w)) (request_of c) = Answer latency 500 body ->
  latency < 30000 ->
  fst (perform c w) = Rejected "Server error occurred".
Proof.
  intros Hnet Hlat.
  rewrite (perform_fst REACT_APP_API_URL network c w).
  apply return_data_rejected.
  destruct (adapter_in_time_status (request_of c) latency 500 body)
    as [e [He Hr]].
  - rewrite request_timeout. exact Hlat.
  - lia.
  - rewrite (settle_failed network _ _ e) by (rewrite Hnet; exact He).
    f_equal. eapply interceptor_server_error. exact Hr.
Qed.

(** X2.  A connection that fails before the timeout, so that no response
    exists, makes each operation reject with 'Network error - please
    check if the backend is running'. *)
Theorem network_failure_mapping (c : Call) (w : World) latency :
  network (List.length (sent w)) (request_of c) = NetworkFailure latency ->
  latency < 30000 ->
  fst (perform c w)
  = Rejected "Network error - please check if the backend is running".
Proof.
  intros Hnet Hlat.
  rewrite (perform_fst REACT_APP_API_URL network c w).
  apply return_data_rejected.
  rewrite (settle_failed network _ _
             (mkAxiosError "Network Error" (Some "ERR_NETWORK") None)).
  - reflexivity.
  - rewrite Hnet. apply adapter_network_failure.
    rewrite request_timeout. exact Hlat.
Qed.


(** X4.  An operation resolves only when the server answered with a 2xx
    status before the 30000 ms were over; and such an answer is never
    turned into a rejection. *)
Theorem resolves_only_on_success (c : Call) (w : World) :
  (forall v,
      fst (perform c w) = Resolved v ->
      exists latency st body,
        network (List.length (sent w)) (request_of c)
        = Answer latency st body /\
        200 <= st < 300 /\ latency < 30000) /\
  (forall latency st body,
      network (List.length (sent w)) (request_of c)
      = Answer latency st body ->
      200 <= st < 300 -> latency < 30000 ->
      forall m, fst (perform c w) <> Rejected m).
Proof.
  rewrite (perform_fst REACT_APP_API_URL network c w).
  split.
  - intros v Hv. apply return_data_resolved in Hv.
    destruct Hv as [r [Hs _]].
    apply settle_resolved_in_time in Hs.
    destruct Hs as [latency [Hn [Hst Hlat]]].
    exists latency, (status r), (response_data r).
    split; [exact Hn |]. split; [exact Hst |].
    rewrite request_timeout in Hlat. apply Hlat. lia.
  - intros latency st body Hn Hst Hlat m.
    rewrite (settle_fulfilled network _ _ latency st body Hn)
      by (rewrite ?request_timeout; assumption).
    discriminate.
Qed.
End Client.

Lemma server_error_mapping_witness :
  fst (getJobStatus None failing "j1" (mkWorld []))
  = Rejected "Server error occurred".
Proof.
  apply (server_error_mapping None failing (GetJobStatus "j1") (mkWorld [])
           25 (JObj [("detail", JStr "Internal Server Error")])).
  - reflexivity.
  - lia.
Defined.

Lemma network_failure_mapping_witness :
  fst (getLesson None down "l1" (mkWorld []))
  = Rejected "Network error - please check if the backend is running".
Proof.
  apply (network_failure_mapping None down (GetLesson "l1") (mkWorld []) 3).
  - reflexivity.
  - lia.
Defined.


Lemma resolves_only_on_success_witness :
  exists latency st body,
    accepting 0 (request_of None (UploadImages []))
    = Answer latency st body /\ 200 <= st < 300 /\ latency < 30000.
Proof.
  apply (proj1 (resolves_only_on_success None accepting (UploadImages [])
                  (mkWorld []))
           (JObj [("job_id", JStr "j1");
                  ("message", JStr "Upload successful")])).
  reflexivity.
Defined.
End ApiMore.

(** ** More on the indexed array primitives *)

Module JsMore.
Import Js JsFacts.

Lemma filteri_from_ext {A} (p q : A -> nat -> bool) l i :
  (forall x j, p x j = q x j) ->
  filteri_from i p l = filteri_from i q l.
Proof.
  intros H. revert i. induction l as [| x l IH]; intros i; simpl;
    [reflexivity |].
  rewrite H, IH. reflexivity.
Qed.

Lemma filteri_from_keep {A} (p : A -> nat -> bool) l i :
  (forall x j, (i <= j)%nat -> p x j = true) ->
  filteri_from i p l = l.
Proof.
  revert i. induction l as [| x l IH]; intros i H; simpl; [reflexivity |].
  rewrite H by lia. f_equal. apply IH. intros y j Hj. apply H. lia.
Qed.

(** Filtering out one index drops the element at that position. *)
Lemma filteri_from_drop {A} (l : list A) i index :
  filteri_from i (fun _ j => negb (Nat.eqb j (i + index))) l
  = (firstn index l ++ skipn (S index) l)%list.
Proof.
  revert i index. induction l as [| x l IH]; intros i index; simpl.
  - destruct index; reflexivity.
  - destruct index as [| index].
    + rewrite Nat.add_0_r, Nat.eqb_refl. simpl.
      apply filteri_from_keep. intros y j Hj.
      destruct (Nat.eqb_spec j i); [lia | reflexivity].
    + destruct (Nat.eqb_spec i (i + S index)) as [E | _]; [lia |].
      simpl. f_equal.
      transitivity
        (filteri_from (S i) (fun (_ : A) j => negb (Nat.eqb j (S i + index)))
           l).
      * apply filteri_from_ext. intros y j. do 2 f_equal. lia.
      * apply (IH (S i) index).
Qed.

Lemma mapi_from_ext {A B} (f g : A -> nat -> B) l i :
  (forall x j, f x j = g x j) -> mapi_from i f l = mapi_from i g l.
Proof.
  intros H. revert i. induction l as [| x l IH]; intros i; simpl;
    [reflexivity |].
  rewrite H, IH. reflexivity.
Qed.

Lemma mapi_from_mapi_from {A B C} (f : A -> nat -> B) (g : B -> nat -> C)
  l i :
  mapi_from i g (mapi_from i f l) = mapi_from i (fun x j => g (f x j) j) l.
Proof.
  revert i. induction l as [| x l IH]; intros i; simpl; [reflexivity |].
  rewrite IH. reflexivity.
Qed.

Lemma mapi_from_app {A B} (f : A -> nat -> B) l1 l2 i :
  mapi_from i f (l1 ++ l2)
  = (mapi_from i f l1 ++ mapi_from (i + List.length l1) f l2)%list.
Proof.
  revert i. induction l1 as [| x l1 IH]; intros i; simpl.
  - rewrite Nat.add_0_r. reflexivity.
  - rewrite IH. rewrite Nat.add_succ_r. reflexivity.
Qed.

Lemma mapi_from_seq {A B} (f : nat -> B) (l : list A) i :
  mapi_from i (fun _ k => f k) l = map f (seq i (List.length l)).
Proof.
  revert i. induction l as [| x l IH]; intros i; simpl; [reflexivity |].
  rewrite IH. reflexivity.
Qed.

Lemma firstn_keeps {A} (P : A -> Prop) (l : list A) :
  Forall P l -> forall n, Forall P (firstn n l).
Proof.
  intros H n. rewrite <- (firstn_skipn n l) in H.
  apply Forall_app in H. apply H.
Qed.

Lemma Forall_filteri_from {A} (P : A -> Prop) (p : A -> nat -> bool) l i :
  Forall P l -> Forall P (filteri_from i p l).
Proof.
  intros H. revert i. induction H as [| x l Hx _ IH]; intros i; simpl.
  - constructor.
  - destruct (p x i); [constructor; [exact Hx | apply IH] | apply IH].
Qed.

Lemma truthy_string_set x : x <> "" -> truthy_string (Some x) = true.
Proof.
  intros H. unfold truthy_string.
  destruct (String.eqb_spec x ""); [contradiction | reflexivity].
Qed.

Lemma or_string_set x d : x <> "" -> or_string (Some x) d = x.
Proof.
  intros H. unfold or_string. rewrite truthy_string_set by exact H.
  reflexivity.
Qed.

Lemma join_cons sep x y (l : list string) :
  join sep (x :: y :: l) = x ++ sep ++ join sep (y :: l).
Proof. reflexivity. Qed.

(** One element that contains the separator joins like two. *)
Lemma join_split_last sep (l : list string) a b :
  join sep (l ++ [a ++ sep ++ b]) = join sep (l ++ [a; b]).
Proof.
  induction l as [| x l IH].
  - simpl. reflexivity.
  - destruct l as [| y l].
    + simpl. reflexivity.
    + change (join sep (x :: (y :: l) ++ [a ++ sep ++ b])
              = join sep (x :: (y :: l) ++ [a; b])).
      cbn [app]. rewrite !join_cons. do 2 f_equal. exact IH.
Qed.
End JsMore.

(** ** More on the upload component *)

Module ImageUploadMore.
Import Js JsFacts JsMore ImageUpload Samples.

(** X5.  [removeFile index] drops exactly the file at [index]: the files
    before it stay where they are, the files after it move up by one, in
    the same order and unchanged; an index past the end changes nothing.
    The list reported to the page is the list kept. *)
Theorem removeFile_drops_one (index : nat) (st : State) :
  let updated := files (fst (removeFile index st)) in
  snd (removeFile index st) = updated /\
  updated = (firstn index (files st) ++ skipn (S index) (files st))%list /\
  (forall j,
      nth_error updated j
      = nth_error (files st) (if Nat.ltb j index then j else S j)) /\
  ((index < List.length (files st))%nat ->
   S (List.length updated) = List.length (files st)) /\
  ((List.length (files st) <= index)%nat -> updated = files st).
Proof.
  cbv zeta. simpl.
  assert (E : filteri (fun (_ : ImageFile) i => negb (Nat.eqb i index))
                (files st)
              = (firstn index (files st) ++ skipn (S index) (files st))%list).
  { unfold filteri. apply (filteri_from_drop (files st) 0 index). }
  rewrite E. split; [reflexivity |]. split; [reflexivity |].
  split; [| split].
  - intros j. destruct (Nat.ltb_spec j index) as [Hlt | Hge].
    + destruct (Nat.le_gt_cases (List.length (files st)) j) as [Hout | Hin].
      * rewrite (proj2 (nth_error_None (files st) j)) by exact Hout.
        apply nth_error_None. rewrite length_app, length_firstn, length_skipn.
        lia.
      * rewrite nth_error_app1 by (rewrite length_firstn; lia).
        rewrite nth_error_firstn.
        destruct (Nat.ltb_spec j index); [reflexivity | lia].
    + destruct (Nat.le_gt_cases (List.length (files st)) index)
        as [Hout | Hin].
      * rewrite firstn_all2 by exact Hout.
        rewrite skipn_all2 by lia. rewrite app_nil_r.
        rewrite (proj2 (nth_error_None (files st) j)) by lia.
        symmetry. apply nth_error_None. lia.
      * rewrite nth_error_app2 by (rewrite length_firstn; lia).
        rewrite length_firstn, nth_error_skipn.
        f_equal. lia.
  - intros Hin. rewrite length_app, length_firstn, length_skipn. lia.
  - intros Hout. rewrite firstn_all2 by exact Hout.
    rewrite skipn_all2 by lia. apply app_nil_r.
Qed.

(** X6.  With a limit that is not negative, a drop that fits (the files
    held plus the files dropped do not exceed the limit) appends every
    dropped file, in the order dropped, each with its own object URL and
    an empty tag; a drop on a component that is full changes nothing. *)
Theorem drop_appends_untagged (maxFiles : Z)
  (createObjectURL : nat -> File -> string) (accepted : list File)
  (st : State) :
  0 <= maxFiles ->
  (Z.of_nat (List.length (files st) + List.length accepted) <= maxFiles ->
   files (fst (onDrop maxFiles createObjectURL accepted st))
   = (files st ++ newFiles createObjectURL accepted st)%list) /\
  (Z.of_nat (List.length (files st)) = maxFiles ->
   files (fst (onDrop maxFiles createObjectURL accepted st)) = files st) /\
  List.length (newFiles createObjectURL accepted st) = List.length accepted /\
  (forall k f,
      nth_error accepted k = Some f ->
      nth_error (newFiles createObjectURL accepted st) k
      = Some (mkImageFile f (createObjectURL (object_urls st + k)%nat f)
                (Some ""))).
Proof.
  intros Hm.
  assert (Hlen : List.length (newFiles createObjectURL accepted st)
                 = List.length accepted).
  { unfold newFiles, mapi. apply mapi_from_length. }
  split; [| split; [| split]].
  - intros Hfit. simpl. rewrite slice0_firstn by exact Hm.
    apply firstn_all2. rewrite length_app, Hlen. lia.
  - intros Hfull. simpl. rewrite slice0_firstn by exact Hm.
    rewrite firstn_app.
    replace (Z.to_nat maxFiles - List.length (files st))%nat with 0%nat
      by lia.
    rewrite firstn_all2 by lia. simpl. apply app_nil_r.
  - exact Hlen.
  - intros k f Hk. unfold newFiles. rewrite mapi_nth_error, Hk. reflexivity.
Qed.

(** X7.  Tag edits compose as writes to one slot: a second edit of the
    same position overwrites the first, and edits of two different
    positions give the same list in either order. *)
Theorem updateTag_composes (i j : nat) (t1 t2 : string) (st : State) :
  fst (updateTag i t2 (fst (updateTag i t1 st))) = fst (updateTag i t2 st) /\
  (i <> j ->
   fst (updateTag j t2 (fst (updateTag i t1 st)))
   = fst (updateTag i t1 (fst (updateTag j t2 st)))).
Proof.
  unfold updateTag. simpl. unfold mapi. split.
  - f_equal. rewrite mapi_from_mapi_from. apply mapi_from_ext.
    intros f k. destruct (Nat.eqb k i); reflexivity.
  - intros Hne. f_equal. rewrite !mapi_from_mapi_from. apply mapi_from_ext.
    intros f k.
    destruct (Nat.eqb_spec k i) as [Hi | Hi];
      destruct (Nat.eqb_spec k j) as [Hj | Hj]; try reflexivity.
    subst. contradiction.
Qed.

Lemma removeFile_drops_one_witness :
  S (List.length
       (files (fst (removeFile 1
                      (mkState [tagged (Some "a"); tagged (Some "b");
                                tagged (Some "c")] 3)))))
  = 3%nat.
Proof.
  apply (proj1 (proj2 (proj2 (proj2
           (removeFile_drops_one 1
              (mkState [tagged (Some "a"); tagged (Some "b");
                        tagged (Some "c")] 3)))))).
  simpl. lia.
Defined.

Lemma drop_appends_untagged_witness :
  files (fst (onDrop 5 sample_url [sample_file; sample_file]
                (mkState [tagged (Some "a")] 1)))
  = (files (mkState [tagged (Some "a")] 1)
     ++ newFiles sample_url [sample_file; sample_file]
          (mkState [tagged (Some "a")] 1))%list.
Proof.
  apply (proj1 (drop_appends_untagged 5 sample_url [sample_file; sample_file]
                  (mkState [tagged (Some "a")] 1) ltac:(lia))).
  simpl. lia.
Defined.

Lemma updateTag_composes_witness :
  fst (updateTag 1 "b" (fst (updateTag 0 "a"
         (mkState [tagged None; tagged None] 2))))
  = fst (updateTag 0 "a" (fst (updateTag 1 "b"
         (mkState [tagged None; tagged None] 2)))).
Proof.
  apply (proj2 (updateTag_composes 0 1 "a" "b"
                  (mkState [tagged None; tagged None] 2))).
  discriminate.
Defined.
End ImageUploadMore.

(** ** More on the upload page *)

Module UploadPageMore.
Import Js JsFacts JsMore Api ApiFacts UploadPage UploadPageFacts Samples.

Lemma mapi_from_ext_on {A B} (P : A -> Prop) (f g : A -> nat -> B) l i :
  Forall P l ->
  (forall x j, P x -> f x j = g x j) ->
  mapi_from i f l = mapi_from i g l.
Proof.
  intros Hl H. revert i. induction Hl as [| x l Hx _ IH]; intros i; simpl;
    [reflexivity |].
  rewrite (H x i Hx), IH. reflexivity.
Qed.

Lemma Forall_mapi_from {A B} (P : B -> Prop) (f : A -> nat -> B) l i :
  (forall x j, P (f x j)) -> Forall P (mapi_from i f l).
Proof.
  intros H. revert i. induction l as [| x l IH]; intros i; simpl;
    constructor; [apply H | apply IH].
Qed.

Lemma append_not_empty a b : a <> "" -> a ++ b <> "".
Proof. destruct a; [contradiction | discriminate]. Qed.

(** A body that is an upload response holds its job id as the string
    [job_id]. *)
Lemma cast_job_id body r :
  UploadResponse.cast body = Some r ->
  get body "job_id" = Some (JStr (UploadResponse.job_id r)).
Proof.
  unfold UploadResponse.cast.
  destruct (inhabits UploadResponse.declaration body) eqn:Hin;
    [| discriminate].
  intros H. injection H as <-.
  destruct body as [ | | b | z | x | l | fields]; try discriminate Hin.
  unfold inhabits, UploadResponse.declaration in Hin. cbn [forallb] in Hin.
  apply andb_true_iff in Hin. destruct Hin as [Hj _].
  unfold member_ok in Hj. cbn [member_name member_type optional] in Hj.
  unfold get, string_member, get_opt. cbn [nullish UploadResponse.job_id].
  destruct (lookup "job_id" fields) as [[ | | b | z | x | l | o] | ];
    simpl in Hj; try discriminate Hj. reflexivity.
Qed.

Lemma inhabits_cast body :
  inhabits UploadResponse.declaration body = true ->
  exists r, UploadResponse.cast body = Some r.
Proof.
  intros H. unfold UploadResponse.cast. rewrite H. eexists. reflexivity.
Qed.

Section Page.
Variable REACT_APP_API_URL : option string.
Variable network : nat -> Request -> Outcome.
Variable TypeError_message : JsValue -> string -> string.

Abbreviation handleUpload :=
  (handleUpload REACT_APP_API_URL network TypeError_message).
Abbreviation uploadImages := (uploadImages REACT_APP_API_URL network).
Abbreviation request_of := (request_of REACT_APP_API_URL).

(** What [handleUpload] does with files at hand, by how the call ends. *)
Lemma handleUpload_submits st w :
  files st <> [] ->
  handleUpload st w
  = (match fst (uploadImages (fst (collect (files st))) w) with
     | Resolved response =>
         match get response "job_id" with
         | Some job_id =>
             (mkState (files st) false None,
              Some ("/status/" ++ to_string job_id))
         | None =>
             (mkState (files st) false
                (Some (TypeError_message response "job_id")),
              None)
         end
     | Rejected m => (mkState (files st) false (Some m), None)
     | Pending => (mkState (files st) true None, None)
     end,
     mkWorld
       (sent w ++ [request_of (UploadImages (fst (collect (files st))))])).
Proof.
  intros Hne. unfold UploadPage.handleUpload.
  destruct (files st) as [| f fs] eqn:Hf; [contradiction |].
  replace (Z.of_nat (List.length (f :: fs)) =? 0) with false
    by (symmetry; apply Z.eqb_neq; simpl; lia).
  unfold Api.uploadImages, await, api_post, dispatch. cbn [fst snd].
  match goal with
  | |- context [return_data ?p] => destruct (return_data p) as [v | m | ]
  end; [destruct (get v "job_id") | ..]; reflexivity.
Qed.

(** X8.  When files are selected and the server accepts the upload (a
    2xx answer within the timeout whose body is an upload response),
    [handleUpload] issues the one upload request, navigates to
    [/status/<job_id>] for the job id of that body, shows no error and
    is no longer uploading; the files stay selected. *)
Theorem handleUpload_success (st : State) (w : World) latency status body r :
  files st <> [] ->
  network (List.length (sent w))
    (request_of (UploadImages (fst (collect (files st)))))
  = Answer latency status body ->
  latency < 30000 ->
  200 <= status < 300 ->
  UploadResponse.cast body = Some r ->
  handleUpload st w
  = (mkState (files st) false None,
     Some ("/status/" ++ UploadResponse.job_id r),
     mkWorld
       (sent w ++ [request_of (UploadImages (fst (collect (files st))))])).
Proof.
  intros Hne Hnet Hlat Hst Hcast.
  rewrite handleUpload_submits by exact Hne.
  change (fst (uploadImages (fst (collect (files st))) w))
    with (return_data
            (settle network (List.length (sent w))
               (request_of (UploadImages (fst (collect (files st))))))).
  rewrite (settle_fulfilled network _ _ latency status body Hnet)
    by (try exact Hst; exact Hlat).
  cbn [return_data response_data].
  rewrite (cast_job_id body r Hcast). reflexivity.
Qed.

(** X9.  A submission with files, whose call comes back well typed,
    ends in one of two ways and leaves the page not uploading with the
    same files: either the call resolved and the page navigates with no
    error set, or the call was rejected and the page stays where it is
    with the message of the rejection as its error. *)
Theorem handleUpload_outcome (st : State) (w : World) :
  files st <> [] ->
  well_typed UploadResponse.declaration
    (fst (uploadImages (fst (collect (files st))) w))
  = true ->
  let p := fst (uploadImages (fst (collect (files st))) w) in
  let after := fst (fst (handleUpload st w)) in
  let navigated := snd (fst (handleUpload st w)) in
  files after = files st /\
  isUploading after = false /\
  ((exists body response,
       p = Resolved body /\
       UploadResponse.cast body = Some response /\
       navigated = Some ("/status/" ++ UploadResponse.job_id response) /\
       error after = None) \/
   (exists m,
       p = Rejected m /\ navigated = None /\ error after = Some m)).
Proof.
  intros Hne Hty. cbv zeta.
  rewrite handleUpload_submits by exact Hne. cbn [fst snd].
  pose proof (settle_not_pending REACT_APP_API_URL network
                (List.length (sent w))
                (UploadImages (fst (collect (files st))))) as Hnp.
  change (return_data
            (settle network (List.length (sent w))
               (request_of (UploadImages (fst (collect (files st)))))))
    with (fst (uploadImages (fst (collect (files st))) w)) in Hnp.
  destruct (fst (uploadImages (fst (collect (files st))) w))
    as [body | m | ]; cbn [well_typed] in Hty.
  - destruct (inhabits_cast body Hty) as [response Hc].
    rewrite (cast_job_id body response Hc). cbn [fst snd to_string].
    split; [reflexivity |]. split; [reflexivity |].
    left. exists body, response. repeat split. exact Hc.
  - split; [reflexivity |]. split; [reflexivity |].
    right. exists m. repeat split.
  - contradiction.
Qed.


(** X10.  The tags are joined by commas as they are: a last image whose
    tag is [a,b] produces the same tags field as two last images tagged
    [a] and [b], so a comma inside a tag cannot be told from the
    separator. *)
Theorem comma_in_tag_reads_as_two (fs : list ImageFile)
  (fab fa fb : ImageFile) (a b : string) :
  tag fab = Some (a ++ "," ++ b) ->
  tag fa = Some a -> tag fb = Some b ->
  a <> "" -> b <> "" ->
  getAll "tags" (fst (collect (fs ++ [fab])))
  = getAll "tags" (fst (collect (fs ++ [fa; fb]))).
Proof.
  intros Hab Ha Hb Hna Hnb.
  rewrite !collect_formData by (destruct fs; discriminate).
  rewrite !getAll_tags_app, !collect_tags. unfold mapi.
  rewrite !mapi_from_app. cbn [mapi_from].
  rewrite Hab, Ha, Hb.
  rewrite !or_string_set by (try assumption; apply append_not_empty;
                             assumption).
  simpl. do 2 f_equal. apply (join_split_last "," _ a b).
Qed.
End Page.

Lemma handle_keeps_untagged createObjectURL e st :
  (forall i t, e <> ImageUpload.Tag i t) ->
  Forall (fun f => tag f = Some "") (ImageUpload.files st) ->
  Forall (fun f => tag f = Some "")
    (ImageUpload.files
       (fst (ImageUpload.handle maxFiles createObjectURL e st))).
Proof.
  intros Hno Hall. destruct e as [accepted | index | index t]; simpl.
  - rewrite slice0_firstn by (unfold maxFiles, ImageUpload.maxFiles_of; lia).
    apply firstn_keeps. apply Forall_app. split; [exact Hall |].
    unfold ImageUpload.newFiles, mapi. apply Forall_mapi_from.
    reflexivity.
  - unfold filteri. apply Forall_filteri_from. exact Hall.
  - exfalso. apply (Hno index t). reflexivity.
Qed.

(** X11.  As long as no tag is edited, whatever is dropped and removed,
    the tags the page would send for the [n] files it holds are [pic1],
    ..., [pic<n>]: the default follows the position at upload time. *)
Theorem untouched_tags_are_positions
  (createObjectURL : nat -> File -> string)
  (events : list ImageUpload.Event) :
  Forall (fun e => forall i t, e <> ImageUpload.Tag i t) events ->
  let held := files (snd (after createObjectURL events)) in
  snd (collect held)
  = map (fun k => "pic" ++ string_of_nat (k + 1))
      (seq 0 (List.length held)).
Proof.
  intros Hev. cbv zeta.
  assert (Hinv : forall s : ImageUpload.State * State,
             Forall (fun f => tag f = Some "") (ImageUpload.files (fst s)) /\
             files (snd s) = ImageUpload.files (fst s) ->
             let s' := fold_left
                         (fun s e => on_event createObjectURL e s) events s in
             Forall (fun f => tag f = Some "") (files (snd s'))).
  { induction Hev as [| e events He _ IH]; intros s [Hall Heq]; simpl.
    - rewrite Heq. exact Hall.
    - apply IH. unfold on_event.
      pose proof (ImageUploadFacts.handle_reports maxFiles createObjectURL e
                    (fst s)) as Hr.
      pose proof (handle_keeps_untagged createObjectURL e (fst s) He Hall)
        as Hk.
      destruct (ImageUpload.handle maxFiles createObjectURL e (fst s))
        as [c changed].
      simpl in *. split; [exact Hk | exact Hr]. }
  specialize (Hinv (ImageUpload.initial, initial)
                (conj (Forall_nil _) eq_refl)).
  simpl in Hinv. unfold after.
  rewrite collect_tags. unfold mapi.
  rewrite (mapi_from_ext_on (fun f => tag f = Some "") _
             (fun _ k => "pic" ++ string_of_nat (k + 1)) _ 0 Hinv).
  - apply mapi_from_seq.
  - intros f k Hf. rewrite Hf. reflexivity.
Qed.

Lemma page_mirrors_component createObjectURL events :
  ImageUpload.within_limit maxFiles (fst (after createObjectURL events)) /\
  files (snd (after createObjectURL events))
  = ImageUpload.files (fst (after createObjectURL events)).
Proof.
  unfold after.
  assert (Hinv : forall s : ImageUpload.State * State,
             ImageUpload.within_limit maxFiles (fst s) /\
             files (snd s) = ImageUpload.files (fst s) ->
             let s' := fold_left
                         (fun s e => on_event createObjectURL e s) events s in
             ImageUpload.within_limit maxFiles (fst s') /\
             files (snd s') = ImageUpload.files (fst s')).
  { induction events as [| e events IH]; intros s [Hl Hf]; simpl.
    - split; assumption.
    - apply IH. unfold on_event.
      pose proof (ImageUploadFacts.handle_reports maxFiles createObjectURL e
                    (fst s)) as Hr.
      pose proof (ImageUploadFacts.handle_within_limit maxFiles
                    createObjectURL
                    ltac:(unfold maxFiles, ImageUpload.maxFiles_of; lia)
                    e (fst s) Hl) as Hb.
      destruct (ImageUpload.handle maxFiles createObjectURL e (fst s))
        as [c changed].
      simpl in *. split; [exact Hb | exact Hr]. }
  apply (Hinv (ImageUpload.initial, initial)).
  unfold ImageUpload.within_limit, maxFiles, ImageUpload.maxFiles_of. simpl.
  split; [lia | reflexivity].
Qed.

(** X24.  Whatever was dropped, removed and tagged before, a submission
    from the page issues one upload request whose form carries between
    one and five files, as many tags as files, and the tags in a single
    comma-joined field. *)
Theorem upload_carries_at_most_five
  (REACT_APP_API_URL : option string) (network : nat -> Request -> Outcome)
  (TypeError_message : JsValue -> string -> string)
  (createObjectURL : nat -> File -> string)
  (events : list ImageUpload.Event) (w : World) :
  let page := snd (after createObjectURL events) in
  files page <> [] ->
  let formData := fst (collect (files page)) in
  sent (snd (handleUpload REACT_APP_API_URL network TypeError_message
               page w))
  = (sent w ++ [request_of REACT_APP_API_URL (UploadImages formData)])%list /\
  (1 <= List.length (getAll "files" formData) <= 5)%nat /\
  List.length (getAll "files" formData)
  = List.length (snd (collect (files page))) /\
  getAll "tags" formData
  = [FormString (join "," (snd (collect (files page))))].
Proof.
  cbv zeta. intros Hne.
  destruct (page_mirrors_component createObjectURL events) as [Hl Hf].
  split; [apply handleUpload_sends; exact Hne |].
  rewrite collect_formData by exact Hne.
  rewrite getAll_files_app, getAll_tags_app. cbn [getAll String.eqb].
  simpl (getAll "files" _). rewrite app_nil_r, length_map.
  rewrite collect_tags. unfold mapi. rewrite mapi_from_length.
  split; [| split; reflexivity].
  unfold ImageUpload.within_limit, maxFiles, ImageUpload.maxFiles_of in Hl.
  rewrite <- Hf in Hl.
  destruct (files (snd (after createObjectURL events)));
    [contradiction | simpl in *; lia].
Qed.

Lemma upload_carries_at_most_five_witness :
  (1 <= List.length
          (getAll "files"
             (fst (collect
                     (files (snd (after sample_url
                                    [ImageUpload.Drop [sample_file]]))))))
   <= 5)%nat.
Proof.
  apply (upload_carries_at_most_five None silent cannot_read sample_url
           [ImageUpload.Drop [sample_file]] (mkWorld [])).
  discriminate.
Defined.

Lemma handleUpload_success_witness :
  handleUpload None accepting cannot_read
    (mkState [tagged None] false None) (mkWorld [])
  = (mkState [tagged None] false None, Some "/status/j1",
     mkWorld [request_of None
                (UploadImages (fst (collect [tagged None])))]).
Proof.
  apply (handleUpload_success None accepting cannot_read
           (mkState [tagged None] false None) (mkWorld []) 35 200
           (JObj [("job_id", JStr "j1");
                  ("message", JStr "Upload successful")])
           (UploadResponse.mk "j1" "Upload successful")).
  - discriminate.
  - reflexivity.
  - lia.
  - lia.
  - reflexivity.
Defined.

Lemma handleUpload_outcome_witness :
  isUploading
    (fst (fst (handleUpload None failing cannot_read
                 (mkState [tagged None] false None) (mkWorld []))))
  = false.
Proof.
  apply (handleUpload_outcome None failing cannot_read
           (mkState [tagged None] false None) (mkWorld [])).
  - discriminate.
  - reflexivity.
Defined.


Lemma comma_in_tag_reads_as_two_witness :
  getAll "tags" (fst (collect ([tagged None] ++ [tagged (Some "a,b")])))
  = getAll "tags"
      (fst (collect ([tagged None] ++ [tagged (Some "a"); tagged (Some "b")]))).
Proof.
  apply (comma_in_tag_reads_as_two [tagged None] (tagged (Some "a,b"))
           (tagged (Some "a")) (tagged (Some "b")) "a" "b");
    try reflexivity; discriminate.
Defined.

Lemma untouched_tags_are_positions_witness :
  snd (collect
         (files (snd (after sample_url
                        [ImageUpload.Drop [sample_file; sample_file];
                         ImageUpload.Remove 0;
                         ImageUpload.Drop [sample_file]]))))
  = ["pic1"; "pic2"].
Proof.
  apply (untouched_tags_are_positions sample_url
           [ImageUpload.Drop [sample_file; sample_file];
            ImageUpload.Remove 0;
            ImageUpload.Drop [sample_file]]).
  repeat constructor; discriminate.
Defined.
End UploadPageMore.

(** ** More on the status page *)

Module StatusPageMore.
Import Js Api ApiFacts StatusPage StatusPageFacts StatusPageView Samples.

Section Page.
Variable REACT_APP_API_URL : option string.
Variable network : nat -> Request -> Outcome.
Variable TypeError_message : JsValue -> string -> string.
Variable jobId : string.

Abbreviation status_at := (status_at REACT_APP_API_URL network jobId).
Abbreviation pollStatus_then := (pollStatus_then TypeError_message).
Abbreviation pollStatus :=
  (pollStatus REACT_APP_API_URL network TypeError_message jobId).
Abbreviation fire := (fire REACT_APP_API_URL network TypeError_message).
Abbreviation poll := (poll REACT_APP_API_URL network TypeError_message).
Abbreviation status_request :=
  (request_of REACT_APP_API_URL (GetJobStatus jobId)).


Lemma pollStatus_unfold st w :
  pollStatus st w
  = (pollStatus_then (status_at (List.length (sent w))) st,
     mkWorld (sent w ++ [status_request])).
Proof. reflexivity. Qed.

Lemma fire_step fuel t later st w :
  fire (S fuel) jobId (t :: later) st w
  = fire fuel jobId
      (later ++ snd (pollStatus_then (status_at (List.length (sent w))) st))
      (fst (pollStatus_then (status_at (List.length (sent w))) st))
      (mkWorld (sent w ++ [status_request])).
Proof.
  cbn [StatusPage.fire]. rewrite pollStatus_unfold.
  destruct (pollStatus_then (status_at (List.length (sent w))) st).
  reflexivity.
Qed.

Lemma fire_nothing fuel st w : fire fuel jobId [] st w = (st, [], w).
Proof. destruct fuel; reflexivity. Qed.

Lemma poll_fires fuel w :
  jobId <> "" ->
  poll fuel jobId w = fire (S fuel) jobId [PollStatusIn 0] initial w.
Proof.
  intros Hne. unfold StatusPage.poll, useEffect.
  destruct (String.eqb_spec jobId ""); [contradiction |].
  rewrite fire_step. rewrite pollStatus_unfold.
  destruct (pollStatus_then (status_at (List.length (sent w))) initial).
  reflexivity.
Qed.

(** The requests of a run are status queries appended to the log. *)
Lemma fire_log fuel :
  forall timers st w,
  exists k,
    (k <= fuel)%nat /\
    sent (snd (fire fuel jobId timers st w))
    = (sent w ++ repeat status_request k)%list /\
    (timers <> [] -> (0 < fuel)%nat -> (0 < k)%nat).
Proof.
  induction fuel as [| fuel IH]; intros timers st w.
  - exists 0%nat. simpl. rewrite app_nil_r.
    split; [lia |]. split; [reflexivity | lia].
  - destruct timers as [| t later].
    + exists 0%nat. rewrite fire_nothing. simpl. rewrite app_nil_r.
      split; [lia |]. split; [reflexivity |]. intros H. contradiction.
    + rewrite fire_step.
      destruct (IH (later ++
                      snd (pollStatus_then
                             (status_at (List.length (sent w))) st))%list
                  (fst (pollStatus_then
                          (status_at (List.length (sent w))) st))
                  (mkWorld (sent w ++ [status_request])))
        as [k [Hk [Hs _]]].
      exists (S k). split; [lia |]. split; [| lia].
      rewrite Hs. simpl. rewrite <- app_assoc. reflexivity.
Qed.

End Page.


(** X13.  Without a job id (none, or the empty string) the page issues
    no request and sets no timer, however long it stays mounted; it
    stops loading and stores the error 'No job ID provided', and what
    it renders is the 'Invalid Job ID' panel alone: the component
    returns it before the page with the error box, the spinner, the
    View Lesson button and the time estimate is reached. *)
Theorem no_job_id_no_polling (REACT_APP_API_URL : option string)
  (network : nat -> Request -> Outcome)
  (TypeError_message : JsValue -> string -> string)
  (st : State) (w : World) :
  (forall jobId,
      jobId = None \/ jobId = Some "" ->
      useEffect REACT_APP_API_URL network TypeError_message jobId st w
      = (mkState (jobStatus st) false (Some "No job ID provided"), [], w) /\
      shows_invalid_job_id jobId = true /\
      forall shown,
        shows_error jobId shown = false /\
        shows_loading jobId shown = false /\
        shows_view_lesson jobId shown = false /\
        shows_time_estimate jobId shown = false) /\
  (forall fuel,
      StatusPage.poll REACT_APP_API_URL network TypeError_message fuel "" w
      = (mkState JNull false (Some "No job ID provided"), [], w)) /\
  (forall jobId,
      shows_invalid_job_id jobId = false <->
      exists id, jobId = Some id /\ id <> "").
Proof.
  split; [| split].
  - intros jobId [-> | ->]; repeat split.
  - intros fuel. unfold StatusPage.poll. simpl. apply fire_nothing.
  - intros jobId. unfold shows_invalid_job_id. split.
    + destruct jobId as [id |]; simpl; [| discriminate].
      destruct (String.eqb_spec id ""); [discriminate |].
      intros _. exists id. auto.
    + intros [id [-> Hne]]. simpl.
      destruct (String.eqb_spec id ""); [contradiction | reflexivity].
Qed.


(** X15.  Whatever the backend answers, a page with a job id only ever
    appends status queries for that job to the log of requests: after
    [fuel] timers the log is the earlier log followed by between 1 and
    [fuel + 1] copies of the request [GET /status/<jobId>], sent without
    a body and with the 30000 ms timeout. *)
Theorem polling_requests (REACT_APP_API_URL : option string)
  (network : nat -> Request -> Outcome)
  (TypeError_message : JsValue -> string -> string) (jobId : string) :
  jobId <> "" ->
  forall fuel w,
    let query := request_of REACT_APP_API_URL (GetJobStatus jobId) in
    (exists k,
        (1 <= k <= fuel + 1)%nat /\
        sent (snd (StatusPage.poll REACT_APP_API_URL network
                     TypeError_message fuel jobId w))
        = (sent w ++ repeat query k)%list) /\
    method query = GET /\
    url query = "/status/" ++ jobId /\
    data query = None /\
    timeout query = 30000.
Proof.
  intros Hne fuel w. cbv zeta. split; [| repeat split].
  rewrite poll_fires by exact Hne.
  destruct (fire_log REACT_APP_API_URL network TypeError_message jobId
              (S fuel) [PollStatusIn 0] initial w) as [k [Hk [Hs Hpos]]].
  exists k. split; [| exact Hs].
  assert (0 < k)%nat by (apply Hpos; [discriminate | lia]). lia.
Qed.


Lemma no_job_id_no_polling_witness :
  useEffect None silent cannot_read None initial (mkWorld [])
  = (mkState JNull false (Some "No job ID provided"), [], mkWorld []) /\
  shows_invalid_job_id None = true /\
  forall shown,
    shows_error None shown = false /\
    shows_loading None shown = false /\
    shows_view_lesson None shown = false /\
    shows_time_estimate None shown = false.
Proof.
  apply (proj1 (no_job_id_no_polling None silent cannot_read initial
                  (mkWorld []))).
  left. reflexivity.
Defined.


Lemma polling_requests_witness :
  exists k,
    (1 <= k <= 3 + 1)%nat /\
    sent (snd (StatusPage.poll None finishes_third cannot_read 3 "j1"
                 (mkWorld [])))
    = ([] ++ repeat (request_of None (GetJobStatus "j1")) k)%list.
Proof.
  apply (proj1 (polling_requests None finishes_third cannot_read "j1"
                  ltac:(discriminate) 3%nat (mkWorld []))).
Defined.
End StatusPageMore.

(** ** The lesson page *)

Module LessonPageFacts.
Import Js JsMore Api ApiFacts LessonPage Samples.

Section Page.
Variable REACT_APP_API_URL : option string.
Variable network : nat -> Request -> Outcome.

Abbreviation getLesson := (getLesson REACT_APP_API_URL network).
Abbreviation mount := (mount REACT_APP_API_URL network).
Abbreviation request_of := (request_of REACT_APP_API_URL).

Lemma mount_fetches id w :
  id <> "" ->
  mount (Some id) w
  = (fetchLesson_then (fst (getLesson id w)) initial,
     mkWorld (sent w ++ [request_of (GetLesson id)])).
Proof.
  intros Hne. unfold LessonPage.mount, fetchLesson.
  rewrite truthy_string_set, or_string_set by exact Hne.
  reflexivity.
Qed.


(** X16.  A lesson the backend does not know (a 404 within the timeout)
    ends in the error view with the message 'Resource not found', after
    exactly one request; the 'Lesson Not Found' view is not what a
    missing lesson leads to. *)
Theorem missing_lesson_shows_error (id : string) (w : World) latency body :
  id <> "" ->
  network (List.length (sent w)) (request_of (GetLesson id))
  = Answer latency 404 body ->
  latency < 30000 ->
  render (fst (mount (Some id) w)) = ErrorLoadingLesson "Resource not found" /\
  render (fst (mount (Some id) w)) <> LessonNotFound /\
  snd (mount (Some id) w) = mkWorld (sent w ++ [request_of (GetLesson id)]).
Proof.
  intros Hne Hnet Hlat. rewrite mount_fetches by exact Hne. cbn [fst snd].
  assert (Hp : fst (getLesson id w) = Rejected "Resource not found").
  { change (fst (getLesson id w))
      with (return_data
              (settle network (List.length (sent w))
                 (request_of (GetLesson id)))).
    apply return_data_rejected.
    destruct (adapter_in_time_status (request_of (GetLesson id)) latency 404
                body) as [e [He Hr]]; [exact Hlat | lia |].
    rewrite (settle_failed network _ _ e) by (rewrite Hnet; exact He).
    f_equal. eapply interceptor_not_found. exact Hr. }
  rewrite Hp. split; [reflexivity |]. split; [discriminate | reflexivity].
Qed.

End Page.

Lemma missing_lesson_shows_error_witness :
  render (fst (mount None unknown_everything (Some "l9") (mkWorld [])))
  = ErrorLoadingLesson "Resource not found".
Proof.
  apply (missing_lesson_shows_error None unknown_everything "l9" (mkWorld [])
           12 (JObj [("detail", JStr "Job not found")])).
  - discriminate.
  - reflexivity.
  - lia.
Defined.


(** A backend that answers the lesson query with 200 and the body
    [null] leads to the 'Lesson Not Found' view. *)
Lemma null_lesson_is_not_found :
  render (fst (mount None answers_null (Some "l1") (mkWorld [])))
  = LessonNotFound.
Proof. reflexivity. Qed.
End LessonPageFacts.

(** ** More on the lesson viewer *)

Module LessonViewerMore.
Import LessonViewer LessonViewerView LessonViewerFacts Samples.

Section Viewer.
Variable lesson : LessonData.

Abbreviation clicks := (clicks lesson).
Abbreviation last_index := (Z.of_nat (List.length (steps lesson)) - 1).

(** X18.  Next and Previous undo each other away from the ends: from
    any step but the last, Next then Previous leads back to the same
    state, and from any step but the first, Previous then Next does. *)
Theorem next_prev_inverse (st : State) :
  (0 <= currentStepIndex st < last_index ->
   prevStep (nextStep lesson st) = st) /\
  (0 < currentStepIndex st <= last_index ->
   nextStep lesson (prevStep st) = st).
Proof.
  destruct st as [i ex]. unfold nextStep, prevStep, setCurrentStepIndex.
  simpl. split; intros H.
  - replace (i <? Z.of_nat (List.length (steps lesson)) - 1) with true
      by (symmetry; apply Z.ltb_lt; lia).
    simpl. replace (0 <? i + 1) with true by (symmetry; apply Z.ltb_lt; lia).
    f_equal. lia.
  - replace (0 <? i) with true by (symmetry; apply Z.ltb_lt; lia).
    simpl.
    replace (i - 1 <? Z.of_nat (List.length (steps lesson)) - 1) with true
      by (symmetry; apply Z.ltb_lt; lia).
    f_equal. lia.
Qed.

Lemma next_many n :
  forall st,
    0 <= currentStepIndex st <= last_index ->
    currentStepIndex (clicks (repeat NextStep n) st)
    = Z.min (currentStepIndex st + Z.of_nat n) last_index.
Proof.
  induction n as [| n IH]; intros st H.
  - simpl. lia.
  - unfold LessonViewerView.clicks in *. cbn [repeat fold_left]. rewrite IH.
    + unfold click, nextStep, setCurrentStepIndex.
      destruct (Z.ltb_spec (currentStepIndex st)
                  (Z.of_nat (List.length (steps lesson)) - 1)); simpl; lia.
    + unfold click, nextStep, setCurrentStepIndex.
      destruct (Z.ltb_spec (currentStepIndex st)
                  (Z.of_nat (List.length (steps lesson)) - 1)); simpl; lia.
Qed.

Lemma prev_many n :
  forall st,
    0 <= currentStepIndex st ->
    currentStepIndex (clicks (repeat PrevStep n) st)
    = Z.max (currentStepIndex st - Z.of_nat n) 0.
Proof.
  induction n as [| n IH]; intros st H.
  - simpl. lia.
  - unfold LessonViewerView.clicks in *. cbn [repeat fold_left]. rewrite IH.
    + unfold click, prevStep, setCurrentStepIndex.
      destruct (Z.ltb_spec 0 (currentStepIndex st)); simpl; lia.
    + unfold click, prevStep, setCurrentStepIndex.
      destruct (Z.ltb_spec 0 (currentStepIndex st)); simpl; lia.
Qed.

(** X19.  Repeated clicks are clamped at the ends: [n] times Next from
    a step in range lands [n] steps further or on the last step,
    whichever comes first, and [n] times Previous lands [n] steps back or
    on the first step. *)
Theorem repeated_clicks_clamp (n : nat) (st : State) :
  0 <= currentStepIndex st <= last_index ->
  currentStepIndex (clicks (repeat NextStep n) st)
  = Z.min (currentStepIndex st + Z.of_nat n) last_index /\
  currentStepIndex (clicks (repeat PrevStep n) st)
  = Z.max (currentStepIndex st - Z.of_nat n) 0.
Proof.
  intros H. split; [apply next_many; exact H | apply prev_many; lia].
Qed.

Lemma existsb_filter {A} (f g : A -> bool) l :
  existsb f (filter g l) = existsb (fun x => f x && g x) l.
Proof.
  induction l as [| x l IH]; simpl; [reflexivity |].
  destruct (g x); simpl; rewrite IH.
  - rewrite andb_true_r. reflexivity.
  - rewrite andb_false_r. reflexivity.
Qed.

Lemma existsb_same {A} (f g : A -> bool) l :
  (forall x, f x = g x) -> existsb f l = existsb g l.
Proof.
  intros H. induction l as [| x l IH]; simpl; [reflexivity |].
  rewrite H, IH. reflexivity.
Qed.

Lemma existsb_none {A} (f : A -> bool) l :
  (forall x, f x = false) -> existsb f l = false.
Proof.
  intros H. induction l as [| x l IH]; simpl; [reflexivity |].
  rewrite H, IH. reflexivity.
Qed.

(** X20.  [toggleSection s] flips whether [s] is expanded and leaves
    every other section and the step index as they were, so toggling
    twice restores what is expanded; the navigation clicks never change
    what is expanded. *)
Theorem toggleSection_flips (s : string) (st : State) :
  (forall s',
      has s' (toggleSection s st)
      = if String.eqb s s' then negb (has s st) else has s' st) /\
  (forall s',
      has s' (toggleSection s (toggleSection s st)) = has s' st) /\
  currentStepIndex (toggleSection s st) = currentStepIndex st /\
  (forall a,
      (forall s', a <> ToggleSection s') ->
      expandedSections (click lesson a st) = expandedSections st).
Proof.
  assert (Hflip : forall t s',
             has s' (toggleSection s t)
             = if String.eqb s s' then negb (has s t)
               else has s' t).
  { intros t s'. unfold has, toggleSection.
    destruct (existsb (String.eqb s) (expandedSections t)) eqn:E; simpl.
    - rewrite existsb_filter.
      destruct (String.eqb_spec s s') as [<- | Hne].
      + apply existsb_none. intros x. destruct (String.eqb s x); reflexivity.
      + apply existsb_same. intros x.
        destruct (String.eqb_spec s' x) as [<- | _]; [| reflexivity].
        destruct (String.eqb_spec s s'); [contradiction | reflexivity].
    - rewrite existsb_app. simpl. rewrite orb_false_r.
      destruct (String.eqb_spec s s') as [<- | Hne].
      + rewrite E, String.eqb_refl. reflexivity.
      + destruct (String.eqb_spec s' s); [congruence |].
        apply orb_false_r. }
  split; [apply Hflip |]. split; [| split].
  - intros s'. rewrite !Hflip.
    destruct (String.eqb_spec s s') as [<- | _]; [| reflexivity].
    rewrite String.eqb_refl. apply negb_involutive.
  - apply toggleSection_index.
  - intros a Ha. destruct a as [ | | index | s']; simpl.
    + unfold nextStep. destruct (_ <? _); reflexivity.
    + unfold prevStep. destruct (_ <? _); reflexivity.
    + destruct (Nat.ltb index (List.length (steps lesson))); reflexivity.
    + exfalso. apply (Ha s'). reflexivity.
Qed.

End Viewer.

Lemma next_prev_inverse_witness :
  prevStep (nextStep two_steps initial) = initial.
Proof.
  apply (proj1 (next_prev_inverse two_steps initial)). simpl. lia.
Defined.

Lemma repeated_clicks_clamp_witness :
  currentStepIndex
    (LessonViewerView.clicks two_steps (repeat NextStep 5) initial)
  = Z.min (0 + Z.of_nat 5) (Z.of_nat 2 - 1).
Proof.
  apply (proj1 (repeated_clicks_clamp two_steps 5 initial ltac:(simpl; lia))).
Defined.

Lemma toggleSection_flips_witness :
  expandedSections (click two_steps NextStep initial)
  = expandedSections initial.
Proof.
  apply (proj2 (proj2 (proj2 (toggleSection_flips two_steps "concepts"
                                initial)))).
  discriminate.
Defined.

End LessonViewerMore.

(** ** The processing status panel *)

Module ProcessingStatusFacts.
Import Js ProcessingStatus.

(** X22.  When the flags follow the order of the pipeline (the lesson
    is built only after the explanations, the explanations only after
    OCR) and no error is passed, the completed steps form a prefix with a
    check mark each, at most one step carries the spinner and it is the
    first one not completed, and every step after it shows the clock;
    with nothing completed the spinner needs the status 'processing'.
    With a non-empty error the panel shows that error and no steps. *)
Theorem steps_form_a_progression (p : Props) :
  (llmDone p = true -> ocrDone p = true) ->
  (lessonBuilt p = true -> llmDone p = true) ->
  (truthy_string (error p) = false ->
   exists n,
     (n <= 3)%nat /\
     render p
     = StepsPanel
         (repeat CheckCircle n
          ++ firstn (3 - n)
               ((if (Nat.eqb n 0 && negb (String.eqb (status p) "processing"))
                 then Clock else Spinner)
                :: [Clock; Clock]))%list
         n) /\
  (forall m, error p = Some m -> m <> "" -> render p = ErrorPanel m).
Proof.
  intros H1 H2. split.
  - intros He. unfold render. rewrite He. unfold steps, icon. simpl.
    destruct (ocrDone p) eqn:O; destruct (llmDone p) eqn:L;
      destruct (lessonBuilt p) eqn:B;
      try (specialize (H1 eq_refl); discriminate);
      try (specialize (H2 eq_refl); discriminate); simpl.
    + exists 3%nat. split; [lia | reflexivity].
    + exists 2%nat. split; [lia | reflexivity].
    + exists 1%nat. split; [lia | reflexivity].
    + exists 0%nat. split; [lia |]. simpl.
      destruct (String.eqb (status p) "processing"); reflexivity.
  - intros m Hm Hne. unfold render. rewrite Hm.
    rewrite JsMore.truthy_string_set, JsMore.or_string_set by exact Hne.
    reflexivity.
Qed.

Lemma steps_form_a_progression_witness :
  exists n,
    (n <= 3)%nat /\
    render (mkProps "processing" true false false None)
    = StepsPanel
        (repeat CheckCircle n
         ++ firstn (3 - n)
              ((if (Nat.eqb n 0 && negb (String.eqb "processing" "processing"))
                then Clock else Spinner)
               :: [Clock; Clock]))%list
        n.
Proof.
  apply (proj1 (steps_form_a_progression
                  (mkProps "processing" true false false None)
                  ltac:(discriminate) ltac:(discriminate))).
  reflexivity.
Defined.
End ProcessingStatusFacts.

(** ** More on the LaTeX clean-up *)

Module MathRendererMore.
Import JsString RegExp MathRenderer MathRendererFacts.
Local Open Scope list_scope.

Lemma no_backslash_nowhere (w s : JsString.t) :
  Forall (fun c => c <> 92%N) s ->
  contains (92%N :: w) s = false.
Proof.
  unfold contains. induction 1 as [| x s Hx _ IH]; [reflexivity |].
  cbn [somewhere]. rewrite IH, orb_false_r. cbn [strip].
  destruct (N.eqb_spec 92 x); [congruence | reflexivity].
Qed.

(** X23.  An expression without a backslash is only trimmed: neither
    replacement touches it, so [cleanLatex] returns it without its
    leading and trailing whitespace and otherwise as it is. *)
Theorem plain_text_is_only_trimmed (latex : JsString.t) :
  Forall (fun c => c <> 92%N) latex ->
  cleanLatex latex = trim latex.
Proof.
  intros H. unfold cleanLatex.
  rewrite text_macro_nowhere.
  - rewrite displaystyle_nowhere; [reflexivity |].
    apply (no_backslash_nowhere (tl (of_string "\displaystyle")) latex H).
  - apply no_text_no_macro.
    apply (no_backslash_nowhere (tl (of_string "\text")) latex H).
Qed.

Lemma plain_text_is_only_trimmed_witness :
  cleanLatex (of_string "  x^2 + 1 ") = trim (of_string "  x^2 + 1 ").
Proof.
  apply (plain_text_is_only_trimmed (of_string "  x^2 + 1 ")).
  vm_compute. repeat constructor; discriminate.
Defined.
End MathRendererMore.
